(** * Distributed failure simulator: a shallow embedding and its properties

    The development embeds the simulation engine of [main.py] (the
    command-line simulator) and the parts of [dashboard.py] (the
    Streamlit duplicate of the engine) that the properties mention.

    Python objects are shared: a database holds a reference to the one
    network object, a server holds references to the database objects.
    The store is therefore the triple of module globals [network],
    [databases], [servers]; a reference ([CRef]) is a path into it, and
    the [dependencies] of a component are references that are looked up
    in the current store each time they are read. *)

From Stdlib Require Import ZArith QArith Lia.
From stdpp Require Import base list strings gmap.

Open Scope Z_scope.

(** ** Components *)

(** [status] only ever holds the two strings "UP" and "DOWN". *)
Inductive Status := UP | DOWN.

#[global] Instance Status_eq_dec : EqDecision Status.
Proof. solve_decision. Defined.

(** A reference to a component object of the store. *)
Inductive CRef :=
| RNetwork
| RDatabase (i : nat)
| RServer (i : nat).

#[global] Instance CRef_eq_dec : EqDecision CRef.
Proof. solve_decision. Defined.

Record Component := mkComponent {
  name : string;
  max_load : Z;
  cost_per_step : Z;
  load : Z;
  status : Status;
  dependencies : list CRef;
  down_since : option Z;
  recovery_time : Z;
  recovery_history : list Z;
  degraded : bool
}.

(** [Component.__init__] of main.py. *)
Definition Component_init (n : string) (ml cost rt : Z) : Component :=
  {| name := n; max_load := ml; cost_per_step := cost;
     load := 0; status := UP; dependencies := [];
     down_since := None; recovery_time := rt; recovery_history := [];
     degraded := false |}.

(** Attribute assignments. *)
Definition set_load (v : Z) (c : Component) : Component :=
  {| name := name c; max_load := max_load c; cost_per_step := cost_per_step c;
     load := v; status := status c; dependencies := dependencies c;
     down_since := down_since c; recovery_time := recovery_time c;
     recovery_history := recovery_history c; degraded := degraded c |}.

Definition set_status (v : Status) (c : Component) : Component :=
  {| name := name c; max_load := max_load c; cost_per_step := cost_per_step c;
     load := load c; status := v; dependencies := dependencies c;
     down_since := down_since c; recovery_time := recovery_time c;
     recovery_history := recovery_history c; degraded := degraded c |}.

Definition set_dependencies (v : list CRef) (c : Component) : Component :=
  {| name := name c; max_load := max_load c; cost_per_step := cost_per_step c;
     load := load c; status := status c; dependencies := v;
     down_since := down_since c; recovery_time := recovery_time c;
     recovery_history := recovery_history c; degraded := degraded c |}.

Definition set_down_since (v : option Z) (c : Component) : Component :=
  {| name := name c; max_load := max_load c; cost_per_step := cost_per_step c;
     load := load c; status := status c; dependencies := dependencies c;
     down_since := v; recovery_time := recovery_time c;
     recovery_history := recovery_history c; degraded := degraded c |}.

Definition set_recovery_history (v : list Z) (c : Component) : Component :=
  {| name := name c; max_load := max_load c; cost_per_step := cost_per_step c;
     load := load c; status := status c; dependencies := dependencies c;
     down_since := down_since c; recovery_time := recovery_time c;
     recovery_history := v; degraded := degraded c |}.

Definition set_degraded (v : bool) (c : Component) : Component :=
  {| name := name c; max_load := max_load c; cost_per_step := cost_per_step c;
     load := load c; status := status c; dependencies := dependencies c;
     down_since := down_since c; recovery_time := recovery_time c;
     recovery_history := recovery_history c; degraded := v |}.

Definition is_down (c : Component) : bool := bool_decide (status c = DOWN).
Definition is_up (c : Component) : bool := bool_decide (status c = UP).

(** ** The store and the global tracking variables of main.py *)

(** One entry of [failure_timeline]: (time, component name, cause). *)
Definition Event : Type := Z * string * string.

Record State := mkState {
  network : Component;
  databases : list Component;
  servers : list Component;
  failure_timeline : list Event;
  current_time : Z;
  system_down_time : option Z;
  total_failure_cost : Z
}.

Definition set_failure_timeline (v : list Event) (s : State) : State :=
  {| network := network s; databases := databases s; servers := servers s;
     failure_timeline := v; current_time := current_time s;
     system_down_time := system_down_time s;
     total_failure_cost := total_failure_cost s |}.

Definition set_current_time (v : Z) (s : State) : State :=
  {| network := network s; databases := databases s; servers := servers s;
     failure_timeline := failure_timeline s; current_time := v;
     system_down_time := system_down_time s;
     total_failure_cost := total_failure_cost s |}.

Definition set_system_down_time (v : option Z) (s : State) : State :=
  {| network := network s; databases := databases s; servers := servers s;
     failure_timeline := failure_timeline s; current_time := current_time s;
     system_down_time := v;
     total_failure_cost := total_failure_cost s |}.

Definition set_total_failure_cost (v : Z) (s : State) : State :=
  {| network := network s; databases := databases s; servers := servers s;
     failure_timeline := failure_timeline s; current_time := current_time s;
     system_down_time := system_down_time s;
     total_failure_cost := v |}.

(** Reading the object behind a reference. *)
Definition deref (s : State) (r : CRef) : option Component :=
  match r with
  | RNetwork => Some (network s)
  | RDatabase i => databases s !! i
  | RServer i => servers s !! i
  end.

(** Writing the object behind a reference (every holder of the
    reference sees the new value). *)
Definition assign (r : CRef) (c : Component) (s : State) : State :=
  match r with
  | RNetwork =>
      {| network := c; databases := databases s; servers := servers s;
         failure_timeline := failure_timeline s; current_time := current_time s;
         system_down_time := system_down_time s;
         total_failure_cost := total_failure_cost s |}
  | RDatabase i =>
      {| network := network s; databases := <[i := c]> (databases s);
         servers := servers s;
         failure_timeline := failure_timeline s; current_time := current_time s;
         system_down_time := system_down_time s;
         total_failure_cost := total_failure_cost s |}
  | RServer i =>
      {| network := network s; databases := databases s;
         servers := <[i := c]> (servers s);
         failure_timeline := failure_timeline s; current_time := current_time s;
         system_down_time := system_down_time s;
         total_failure_cost := total_failure_cost s |}
  end.

(** References to the elements of the two tier lists, in list order. *)
Definition database_refs (s : State) : list CRef :=
  RDatabase <$> seq 0 (length (databases s)).

Definition server_refs (s : State) : list CRef :=
  RServer <$> seq 0 (length (servers s)).

(** [[network] + databases + servers], as references and as values. *)
Definition all_refs (s : State) : list CRef :=
  [RNetwork] ++ database_refs s ++ server_refs s.

Definition components (s : State) : list Component :=
  [network s] ++ databases s ++ servers s.

(** ** System setup (module level of main.py) *)

Definition initial_state : State :=
  {| network := Component_init "Network" 80 5000 3;
     databases :=
       set_dependencies [RNetwork] <$>
         [ Component_init "Database-1" 100 20000 2;
           Component_init "Database-2" 100 20000 2 ];
     servers :=
       set_dependencies [RDatabase 0; RDatabase 1] <$>
         [ Component_init "WebServer-1" 120 15000 1;
           Component_init "WebServer-2" 120 15000 1 ];
     failure_timeline := [];
     current_time := 0;
     system_down_time := None;
     total_failure_cost := 0 |}.

(** ** Core logic of main.py *)

(** The transition to "DOWN" shared by the three failure paths:
    [status = "DOWN"; down_since = current_time;
     failure_timeline.append((current_time, name, cause))]. *)
Definition mark_down (r : CRef) (c : Component) (cause : string) (s : State) : State :=
  set_failure_timeline
    (failure_timeline s ++ [(current_time s, name c, cause)])
    (assign r (set_down_since (Some (current_time s)) (set_status DOWN c)) s).

Definition inject_failure (r : CRef) (s : State) : State :=
  match deref s r with
  | None => s
  | Some component => mark_down r component "Injected failure" s
  end.

(** [dep.status == "DOWN"] for the object behind [d]. *)
Definition dep_down (s : State) (d : CRef) : bool :=
  match deref s d with
  | Some dep => is_down dep
  | None => false
  end.

Definition update_component (r : CRef) (s : State) : State :=
  match deref s r with
  | None => s
  | Some component =>
      if is_down component then s
      else
        let l :=
          fold_left (fun acc d => if dep_down s d then acc + 50 else acc)
                    (dependencies component) (load component) in
        let component' := set_load l component in
        if max_load component' <? load component'
        then mark_down r component' "Overload due to dependency failure"
               (assign r component' s)
        else assign r component' s
  end.

(** Body of the loop of [distribute_traffic] for one active server.
    The test [0.8 * max_load < load] compares a double with an integer;
    for integer loads and non-negative integer capacities below 2^50 it
    agrees with [4 * max_load < 5 * load] (for the servers of the
    system, [0.8 * 120] is the double 96.0). *)
Definition serve_traffic (traffic_per_server : Z) (r : CRef) (s : State) : State :=
  match deref s r with
  | None => s
  | Some srv =>
      let srv1 := set_load (load srv + traffic_per_server) srv in
      let srv2 :=
        if (4 * max_load srv1 <? 5 * load srv1) && (load srv1 <=? max_load srv1)
        then set_degraded true srv1 else srv1 in
      if max_load srv2 <? load srv2
      then mark_down r srv2 "Traffic overload" (assign r srv2 s)
      else assign r srv2 s
  end.

(** [s.status == "UP"] for the object behind [r]. *)
Definition ref_up (s : State) (r : CRef) : bool :=
  match deref s r with
  | Some srv => is_up srv
  | None => false
  end.

Definition active_servers (s : State) : list CRef :=
  filter (fun r => ref_up s r = true) (server_refs s).

Definition distribute_traffic (total_traffic : Z) (s : State) : State :=
  let active := active_servers s in
  match active with
  | [] => s
  | _ =>
      let traffic_per_server := total_traffic `div` Z.of_nat (length active) in
      fold_left (fun st r => serve_traffic traffic_per_server r st) active s
  end.

(** ** Recovery *)

Definition recover_one (r : CRef) (s : State) : State :=
  match deref s r with
  | None => s
  | Some comp =>
      match status comp, down_since comp with
      | DOWN, Some since =>
          if recovery_time comp <=? current_time s - since
          then
            let duration := current_time s - since in
            assign r
              (set_recovery_history (recovery_history comp ++ [duration])
                 (set_down_since None
                    (set_degraded false
                       (set_load 0 (set_status UP comp))))) s
          else s
      | _, _ => s
      end
  end.

Definition recover_components (s : State) : State :=
  fold_left (fun st r => recover_one r st) (all_refs s) s.

(** ** System checks *)

Definition system_down (s : State) : bool :=
  forallb is_down (databases s) || forallb is_down (servers s).

(** ** Simulation *)

Definition accrue_cost (s : State) : State :=
  set_total_failure_cost
    (fold_left (fun cost comp =>
                  if is_down comp then cost + cost_per_step comp else cost)
               (components s) (total_failure_cost s)) s.

Definition record_system_down (s : State) : State :=
  if system_down s && bool_decide (system_down_time s = None)
  then set_system_down_time (Some (current_time s)) s
  else s.

(** [for db in databases: update_component(db)] and
    [for srv in servers: update_component(srv)]. *)
Definition update_databases (s : State) : State :=
  fold_left (fun st db => update_component db st) (database_refs s) s.

Definition update_servers (s : State) : State :=
  fold_left (fun st srv => update_component srv st) (server_refs s) s.

(** One iteration of the loop of [simulate], for the loop variable [t].
    [print_status] and [print_architecture] only write to the console. *)
Definition simulate_iteration (t : Z) (s : State) : State :=
  let s := set_current_time t s in
  let s := update_databases s in
  let s := update_servers s in
  let s := distribute_traffic 120 s in
  let s := accrue_cost s in
  let s := record_system_down s in
  recover_components s.

(** [range(1, time_steps + 1)]. *)
Definition range1 (time_steps : Z) : list Z :=
  Z.of_nat <$> seq 1 (Z.to_nat time_steps).

Definition simulate (time_steps : Z) (s : State) : State :=
  fold_left (fun st t => simulate_iteration t st) (range1 time_steps) s.

(** ** Metrics *)

Definition event_name (e : Event) : string := snd (fst e).

Definition calculate_resilience_score (total_time : Z) (s : State) : Z :=
  let score := 100 in
  let score :=
    match system_down_time s with
    | Some t => score - (total_time - t) * 10
    | None => score
    end in
  let failed_components : gset string :=
    list_to_set (event_name <$> failure_timeline s) in
  let score := score - Z.of_nat (size failed_components) * 10 in
  let score := score - Z.of_nat (length (failure_timeline s)) * 5 in
  Z.max score 0.

(** [sum(times) / len(times)] is Python's true division of two integers;
    the result is kept as the exact rational it denotes. *)
Definition calculate_mttr (s : State) : Q :=
  let times :=
    fold_left (fun ts comp => ts ++ recovery_history comp) (components s) [] in
  match times with
  | [] => 0%Q
  | _ => Qmake (foldr Z.add 0 times) (Pos.of_nat (length times))
  end.

Definition reset_component (r : CRef) (s : State) : State :=
  match deref s r with
  | None => s
  | Some comp =>
      assign r
        (set_degraded false
           (set_down_since None
              (set_load 0 (set_status UP comp)))) s
  end.

Definition reset_system (s : State) : State :=
  let s := set_failure_timeline [] s in
  let s := set_current_time 0 s in
  let s := set_system_down_time None s in
  let s := set_total_failure_cost 0 s in
  fold_left (fun st r => reset_component r st) (all_refs s) s.

(** ** The engine of dashboard.py

    The dashboard keeps its own copy of the engine over the Streamlit
    session state.  Its components have no [degraded] flag, and there is
    neither a failure timeline nor a recorded system-down time. *)
Module Dashboard.

Record Component := mkComponent {
  name : string;
  max_load : Z;
  cost : Z;
  recovery_time : Z;
  status : Status;
  load : Z;
  dependencies : list CRef;
  down_since : option Z;
  recovery_history : list Z
}.

Definition Component_init (n : string) (ml c rt : Z) : Component :=
  {| name := n; max_load := ml; cost := c; recovery_time := rt;
     status := UP; load := 0; dependencies := [];
     down_since := None; recovery_history := [] |}.

Definition set_dependencies (v : list CRef) (c : Component) : Component :=
  {| name := name c; max_load := max_load c; cost := cost c;
     recovery_time := recovery_time c; status := status c; load := load c;
     dependencies := v; down_since := down_since c;
     recovery_history := recovery_history c |}.

Definition set_status (v : Status) (c : Component) : Component :=
  {| name := name c; max_load := max_load c; cost := cost c;
     recovery_time := recovery_time c; status := v; load := load c;
     dependencies := dependencies c; down_since := down_since c;
     recovery_history := recovery_history c |}.

Definition set_load (v : Z) (c : Component) : Component :=
  {| name := name c; max_load := max_load c; cost := cost c;
     recovery_time := recovery_time c; status := status c; load := v;
     dependencies := dependencies c; down_since := down_since c;
     recovery_history := recovery_history c |}.

Definition set_down_since (v : option Z) (c : Component) : Component :=
  {| name := name c; max_load := max_load c; cost := cost c;
     recovery_time := recovery_time c; status := status c; load := load c;
     dependencies := dependencies c; down_since := v;
     recovery_history := recovery_history c |}.

Definition set_recovery_history (v : list Z) (c : Component) : Component :=
  {| name := name c; max_load := max_load c; cost := cost c;
     recovery_time := recovery_time c; status := status c; load := load c;
     dependencies := dependencies c; down_since := down_since c;
     recovery_history := v |}.

(** [st.session_state]; the [components] entry lists the very objects
    of the three other entries. *)
Record Session := mkSession {
  network : Component;
  databases : list Component;
  servers : list Component;
  time : Z;
  cost_total : Z
}.

Definition components (s : Session) : list Component :=
  [network s] ++ databases s ++ servers s.

Definition deref (s : Session) (r : CRef) : option Component :=
  match r with
  | RNetwork => Some (network s)
  | RDatabase i => databases s !! i
  | RServer i => servers s !! i
  end.

Definition assign (r : CRef) (c : Component) (s : Session) : Session :=
  match r with
  | RNetwork =>
      {| network := c; databases := databases s; servers := servers s;
         time := time s; cost_total := cost_total s |}
  | RDatabase i =>
      {| network := network s; databases := <[i := c]> (databases s);
         servers := servers s; time := time s; cost_total := cost_total s |}
  | RServer i =>
      {| network := network s; databases := databases s;
         servers := <[i := c]> (servers s);
         time := time s; cost_total := cost_total s |}
  end.

Definition all_refs (s : Session) : list CRef :=
  [RNetwork] ++ (RDatabase <$> seq 0 (length (databases s)))
             ++ (RServer <$> seq 0 (length (servers s))).

(** [init_system] together with the first-run block that stores its
    result, time 0 and cost 0 in the session. *)
Definition init_system : Session :=
  {| network := Component_init "Network" 80 5000 3;
     databases :=
       set_dependencies [RNetwork] <$>
         [ Component_init "Database-1" 100 20000 2;
           Component_init "Database-2" 100 20000 2 ];
     servers :=
       set_dependencies [RDatabase 0; RDatabase 1] <$>
         [ Component_init "WebServer-1" 120 15000 1;
           Component_init "WebServer-2" 120 15000 1 ];
     time := 0;
     cost_total := 0 |}.

Definition inject_failure (r : CRef) (s : Session) : Session :=
  match deref s r with
  | None => s
  | Some comp =>
      if bool_decide (status comp = UP)
      then assign r (set_down_since (Some (time s)) (set_status DOWN comp)) s
      else s
  end.

Definition dep_down (s : Session) (d : CRef) : bool :=
  match deref s d with
  | Some dep => bool_decide (status dep = DOWN)
  | None => false
  end.

Definition update_component (r : CRef) (s : Session) : Session :=
  match deref s r with
  | None => s
  | Some comp =>
      if negb (bool_decide (status comp = UP)) then s
      else
        let l :=
          fold_left (fun acc d => if dep_down s d then acc + 50 else acc)
                    (dependencies comp) (load comp) in
        let comp' := set_load l comp in
        if max_load comp' <? load comp'
        then assign r (set_down_since (Some (time s)) (set_status DOWN comp')) s
        else assign r comp' s
  end.

Definition recover_one (r : CRef) (s : Session) : Session :=
  match deref s r with
  | None => s
  | Some comp =>
      match status comp, down_since comp with
      | DOWN, Some since =>
          if recovery_time comp <=? time s - since
          then
            assign r
              (set_down_since None
                 (set_recovery_history
                    (recovery_history comp ++ [time s - since])
                    (set_load 0 (set_status UP comp)))) s
          else s
      | _, _ => s
      end
  end.

Definition recover_components (s : Session) : Session :=
  fold_left (fun st r => recover_one r st) (all_refs s) s.

Definition accrue_cost (s : Session) : Session :=
  {| network := network s; databases := databases s; servers := servers s;
     time := time s;
     cost_total :=
       fold_left (fun acc comp =>
                    if bool_decide (status comp = DOWN)
                    then acc + cost comp else acc)
                 (components s) (cost_total s) |}.

Definition tick (s : Session) : Session :=
  {| network := network s; databases := databases s; servers := servers s;
     time := time s + 1; cost_total := cost_total s |}.

Definition update_databases (s : Session) : Session :=
  fold_left (fun st db => update_component db st)
            (RDatabase <$> seq 0 (length (databases s))) s.

Definition update_servers (s : Session) : Session :=
  fold_left (fun st srv => update_component srv st)
            (RServer <$> seq 0 (length (servers s))) s.

Definition simulate_step (s : Session) : Session :=
  let s := tick s in
  let s := update_databases s in
  let s := update_servers s in
  let s := recover_components s in
  accrue_cost s.

Definition system_down (s : Session) : bool :=
  forallb (fun db => bool_decide (status db = DOWN)) (databases s)
  || forallb (fun srv => bool_decide (status srv = DOWN)) (servers s).

(** [reset_system] rebuilds the components with [init_system] and
    stores them, time 0 and cost 0, over the session entries. *)
Definition reset_system (s : Session) : Session := init_system.

End Dashboard.

(** ** Display (main.py)

    The three display functions only read the state.  What they write is
    kept as the list of the strings passed to [print], one per call, and
    as the list of colours passed to [scatter]. *)

Definition newline : string := String (Ascii.ascii_of_nat 10) "".

Definition status_str (st : Status) : string :=
  match st with UP => "UP" | DOWN => "DOWN" end.

Definition print_status (VERBOSE : bool) (s : State) : list string :=
  if negb VERBOSE then []
  else
    [newline +:+ "--- SYSTEM STATUS ---";
     "Network: " +:+ status_str (status (network s))]
    ++ ((fun db => name db +:+ ": " +:+ status_str (status db)) <$> databases s)
    ++ ((fun srv =>
           let state :=
             if degraded srv then "DEGRADED" else status_str (status srv) in
           name srv +:+ ": " +:+ state) <$> servers s).

Definition print_architecture (VERBOSE : bool) (s : State) : list string :=
  if negb VERBOSE then []
  else
    [newline +:+ "🧩 SYSTEM ARCHITECTURE";
     "[ Network " +:+ (if is_down (network s) then "❌" else "✅") +:+ " ]";
     "        ↓"]
    ++ ((fun db =>
           "[ " +:+ name db +:+ " " +:+
           (if is_down db then "❌" else "✅") +:+ " ]") <$> databases s)
    ++ ["        ↓"]
    ++ ((fun srv =>
           let icon :=
             if is_down srv then "❌"
             else if degraded srv then "⚠️" else "✅" in
           "[ " +:+ name srv +:+ " " +:+ icon +:+ " ]") <$> servers s).

(** The [colors] list of [draw_graph]. *)
Definition draw_graph_colors (s : State) : list string :=
  (fun c => if is_down c then "red"
            else if degraded c then "orange" else "green") <$> components s.

(** ** Monte Carlo (main.py)

    [random_failure] draws one of [[network] + databases + servers];
    the drawn references are an input of the model, one per run.
    [VERBOSE] only switches the console output off and on again. *)

Record TrialResult := mkTrialResult {
  cost : Z;
  score : Z;
  failed : string;
  outage : bool
}.

(** The body of the loop of [monte_carlo_simulation], up to the end of
    [simulate]. *)
Definition run_trial (time_steps : Z) (failed_ref : CRef) (s : State) : State :=
  simulate time_steps (inject_failure failed_ref (reset_system s)).

(** The dictionary appended to [results]; [failed.name] is read from the
    object behind the drawn reference. *)
Definition trial_result (time_steps : Z) (failed_ref : CRef) (s : State)
  : TrialResult :=
  {| cost := total_failure_cost s;
     score := calculate_resilience_score time_steps s;
     failed := match deref s failed_ref with
               | Some c => name c
               | None => ""
               end;
     outage := system_down s |}.

Fixpoint monte_carlo_loop (draws : list CRef) (time_steps : Z) (s : State)
    (results : list TrialResult) : list TrialResult * State :=
  match draws with
  | [] => (results, s)
  | failed_ref :: draws =>
      let s := run_trial time_steps failed_ref s in
      monte_carlo_loop draws time_steps s
        (results ++ [trial_result time_steps failed_ref s])
  end.

Definition monte_carlo_simulation (draws : list CRef) (time_steps : Z)
    (s : State) : list TrialResult * State :=
  monte_carlo_loop draws time_steps s [].

(** [frequency[k] = frequency.get(k, 0) + 1] on a dictionary kept in
    insertion order. *)
Fixpoint bump (k : string) (frequency : list (string * nat))
  : list (string * nat) :=
  match frequency with
  | [] => [(k, 1%nat)]
  | (k', n) :: rest =>
      if decide (k' = k) then (k', (n + 1)%nat) :: rest
      else (k', n) :: bump k rest
  end.

(** The figures [analyze_monte_carlo] computes before it formats them.
    The three quotients are Python's true division, kept as exact
    rationals; the ranking it prints is [frequency] sorted by count. *)
Record Summary := mkSummary {
  total_runs : nat;
  avg_cost : Q;
  worst_cost : Z;
  avg_score : Q;
  outage_prob : Q;
  frequency : list (string * nat)
}.

(** [None] stands for the [ZeroDivisionError] that the first division
    raises on an empty list of results. *)
Definition analyze_monte_carlo (results : list TrialResult) : option Summary :=
  match results with
  | [] => None
  | r :: rest =>
      let total_runs := length results in
      let den := Pos.of_nat total_runs in
      Some
        {| total_runs := total_runs;
           avg_cost := Qmake (foldr Z.add 0 (cost <$> results)) den;
           worst_cost := foldr Z.max (cost r) (cost <$> rest);
           avg_score := Qmake (foldr Z.add 0 (score <$> results)) den;
           outage_prob :=
             (Qmake (Z.of_nat (length (filter (fun r => outage r = true) results)))
                    den * 100)%Q;
           frequency :=
             fold_left (fun freq r => bump (failed r) freq) results [] |}
  end.

(** * Vocabulary of the properties *)

(** The state a run starts from, and the scenario "the network fails at
    time 0". *)
Definition baseline : State := reset_system initial_state.

Definition network_outage : State := inject_failure RNetwork baseline.

(** [related R s s'] says that [s'] has the same objects as [s] and that
    each one is [R]-related to its earlier value. *)
Definition related (R : relation Component) (s s' : State) : Prop :=
  ∀ r, option_Forall2 R (deref s r) (deref s' r).

Definition all_components (P : Component → Prop) (s : State) : Prop :=
  ∀ r c, deref s r = Some c → P c.

(** The tracking variables that only the driver loop itself writes. *)
Definition driver_variables (s : State) : Z * option Z * Z :=
  (current_time s, system_down_time s, total_failure_cost s).

(** The cost of one step in a given state: the [cost_per_step] of the
    components that are DOWN. *)
Definition failed_cost (s : State) : Z :=
  foldr Z.add 0
    (cost_per_step <$> filter (fun c => status c = DOWN) (components s)).

(** What one pass of the recovery loop does to a single component at
    time [t]. *)
Definition recovered (t : Z) (c : Component) : Component :=
  match status c, down_since c with
  | DOWN, Some since =>
      if recovery_time c <=? t - since
      then
        {| name := name c; max_load := max_load c;
           cost_per_step := cost_per_step c;
           load := 0; status := UP; dependencies := dependencies c;
           down_since := None; recovery_time := recovery_time c;
           recovery_history := recovery_history c ++ [t - since];
           degraded := false |}
      else c
  | _, _ => c
  end.

(** What the load balancer does to a single active server at time [t]. *)
Definition served (share t : Z) (c : Component) : Component :=
  let l := load c + share in
  if max_load c <? l
  then set_down_since (Some t) (set_status DOWN (set_load l c))
  else if 4 * max_load c <? 5 * l
       then set_degraded true (set_load l c)
       else set_load l c.

(** What [reset_system] does to a single component. *)
Definition cleared (c : Component) : Component :=
  {| name := name c; max_load := max_load c;
     cost_per_step := cost_per_step c;
     load := 0; status := UP; dependencies := dependencies c;
     down_since := None; recovery_time := recovery_time c;
     recovery_history := recovery_history c;
     degraded := false |}.

(** The states the program can be in: the module-level setup followed by
    any sequence of injections on existing components, simulation runs
    and resets. *)
Inductive reachable : State → Prop :=
| reachable_initial : reachable initial_state
| reachable_inject s r :
    reachable s → is_Some (deref s r) → reachable (inject_failure r s)
| reachable_simulate s time_steps :
    reachable s → reachable (simulate time_steps s)
| reachable_reset s :
    reachable s → reachable (reset_system s).

(** The state with every recovery history emptied. *)
Definition forget_history (s : State) : State :=
  {| network := set_recovery_history [] (network s);
     databases := set_recovery_history [] <$> databases s;
     servers := set_recovery_history [] <$> servers s;
     failure_timeline := failure_timeline s;
     current_time := current_time s;
     system_down_time := system_down_time s;
     total_failure_cost := total_failure_cost s |}.

(** The number of dependencies of [c] that are DOWN in [s]. *)
Definition down_dependencies (s : State) (c : Component) : Z :=
  Z.of_nat (length (filter (fun d => dep_down s d = true) (dependencies c))).

(** What [update_component] does to a single component in state [s]. *)
Definition propagated (s : State) (c : Component) : Component :=
  if is_down c then c
  else
    let l := load c + 50 * down_dependencies s c in
    if max_load c <? l
    then set_down_since (Some (current_time s)) (set_status DOWN (set_load l c))
    else set_load l c.

(** [frequency.get(k, 0)]. *)
Fixpoint dict_get (k : string) (frequency : list (string * nat)) : nat :=
  match frequency with
  | [] => 0%nat
  | (k', n) :: rest => if decide (k' = k) then n else dict_get k rest
  end.

(** * Properties *)

(** ** The store *)

Lemma deref_assign_eq s r c c0 :
  deref s r = Some c0 → deref (assign r c s) r = Some c.
Proof.
  destruct r as [|i|i]; simpl; [done | |];
    intros H%lookup_lt_Some; by apply list_lookup_insert_eq.
Qed.

Lemma deref_assign_ne s r r' c :
  r ≠ r' → deref (assign r c s) r' = deref s r'.
Proof.
  intros Hne.
  destruct r as [|i|i], r' as [|j|j]; simpl; try done;
    apply list_lookup_insert_ne; congruence.
Qed.

Lemma assign_current_time r c s : current_time (assign r c s) = current_time s.
Proof. by destruct r. Qed.

Lemma assign_failure_timeline r c s :
  failure_timeline (assign r c s) = failure_timeline s.
Proof. by destruct r. Qed.

Lemma assign_system_down_time r c s :
  system_down_time (assign r c s) = system_down_time s.
Proof. by destruct r. Qed.

Lemma assign_total_failure_cost r c s :
  total_failure_cost (assign r c s) = total_failure_cost s.
Proof. by destruct r. Qed.

Lemma deref_mark_down s r r' c cause :
  deref (mark_down r c cause s) r' =
  deref (assign r (set_down_since (Some (current_time s)) (set_status DOWN c)) s) r'.
Proof. by destruct r', r. Qed.

(** ** Loops that visit each object once *)

Lemma NoDup_database_refs s : NoDup (database_refs s).
Proof.
  unfold database_refs. apply NoDup_fmap_2; [|apply NoDup_seq].
  by intros i j [= ->].
Qed.

Lemma NoDup_server_refs s : NoDup (server_refs s).
Proof.
  unfold server_refs. apply NoDup_fmap_2; [|apply NoDup_seq].
  by intros i j [= ->].
Qed.

Lemma elem_of_database_refs s r :
  r ∈ database_refs s ↔ ∃ i, r = RDatabase i ∧ is_Some (databases s !! i).
Proof.
  unfold database_refs. rewrite list_elem_of_fmap. split.
  - intros (i & -> & Hi). exists i. split; [done|].
    apply lookup_lt_is_Some. apply elem_of_seq in Hi. lia.
  - intros (i & -> & Hi%lookup_lt_is_Some). exists i. split; [done|].
    apply elem_of_seq. lia.
Qed.

Lemma elem_of_server_refs s r :
  r ∈ server_refs s ↔ ∃ i, r = RServer i ∧ is_Some (servers s !! i).
Proof.
  unfold server_refs. rewrite list_elem_of_fmap. split.
  - intros (i & -> & Hi). exists i. split; [done|].
    apply lookup_lt_is_Some. apply elem_of_seq in Hi. lia.
  - intros (i & -> & Hi%lookup_lt_is_Some). exists i. split; [done|].
    apply elem_of_seq. lia.
Qed.

Lemma NoDup_all_refs s : NoDup (all_refs s).
Proof.
  unfold all_refs. apply NoDup_app. split; [apply NoDup_singleton|]. split.
  - intros r ->%list_elem_of_singleton [H|H]%elem_of_app.
    + apply elem_of_database_refs in H as (? & ? & ?). done.
    + apply elem_of_server_refs in H as (? & ? & ?). done.
  - apply NoDup_app. split; [apply NoDup_database_refs|].
    split; [|apply NoDup_server_refs].
    intros r (? & -> & ?)%elem_of_database_refs
             (? & ? & ?)%elem_of_server_refs. done.
Qed.

Lemma elem_of_all_refs s r : r ∈ all_refs s ↔ is_Some (deref s r).
Proof.
  unfold all_refs. rewrite !elem_of_app, list_elem_of_singleton,
    elem_of_database_refs, elem_of_server_refs.
  destruct r as [|i|i]; simpl.
  - split; [by eauto | by left].
  - split.
    + intros [?|[(j & [= <-] & ?)|(? & ? & ?)]]; done.
    + intros H. right; left. by exists i.
  - split.
    + intros [?|[(? & ? & ?)|(j & [= <-] & ?)]]; done.
    + intros H. right; right. by exists i.
Qed.

Lemma NoDup_active_servers s : NoDup (active_servers s).
Proof. apply NoDup_filter, NoDup_server_refs. Qed.

Lemma elem_of_active_servers s r :
  r ∈ active_servers s ↔ r ∈ server_refs s ∧ ref_up s r = true.
Proof. unfold active_servers. rewrite list_elem_of_filter. tauto. Qed.

(** A loop whose body [op r] rewrites the object behind [r] with [f] and
    leaves every other object alone rewrites exactly the objects it
    visits, as long as it visits none twice.  [I] is whatever the body
    needs to stay true of the state (the clock, typically). *)
Lemma fold_pointwise (op : CRef → State → State) (f : Component → Component)
    (I : State → Prop) l s r :
  (∀ r st, I st → I (op r st)) →
  (∀ r r' st, I st →
     deref (op r st) r' =
     if decide (r = r') then f <$> deref st r' else deref st r') →
  NoDup l → I s →
  deref (fold_left (fun st r => op r st) l s) r =
  if decide (r ∈ l) then f <$> deref s r else deref s r.
Proof.
  intros HI Hop. revert s.
  induction l as [|r0 l IH]; intros s Hnd Hs; cbn [fold_left].
  - destruct (decide (r ∈ [])) as [Hin|]; [|done].
    by apply not_elem_of_nil in Hin.
  - apply NoDup_cons in Hnd as [Hr0 Hnd].
    rewrite IH by auto. rewrite Hop by done.
    destruct (decide (r ∈ l)) as [Hin|Hin], (decide (r0 = r)) as [Heq|Hne],
      (decide (r ∈ r0 :: l)) as [Hin'|Hin']; try done.
    + by subst.
    + by subst.
    + exfalso. apply Hin'. by apply list_elem_of_further.
    + exfalso. apply Hin'. subst. apply list_elem_of_here.
    + apply elem_of_cons in Hin' as [?|?]; by subst.
Qed.

(** The same loop leaves alone whatever each pass of its body leaves
    alone. *)
Lemma fold_frame {S A} (g : S → A) (op : CRef → S → S) l (s : S) :
  (∀ r st, g (op r st) = g st) →
  g (fold_left (fun st r => op r st) l s) = g s.
Proof.
  intros Hop. revert s. induction l as [|r l IH]; intros s; simpl; [done|].
  by rewrite IH, Hop.
Qed.

(** ** Recovery, object by object *)

Lemma recover_one_current_time r s :
  current_time (recover_one r s) = current_time s.
Proof.
  unfold recover_one. destruct (deref s r) as [c|]; [|done].
  destruct (status c), (down_since c); try done.
  destruct (_ <=? _); [apply assign_current_time | done].
Qed.

Lemma recover_one_system_down_time r s :
  system_down_time (recover_one r s) = system_down_time s.
Proof.
  unfold recover_one. destruct (deref s r) as [c|]; [|done].
  destruct (status c), (down_since c); try done.
  destruct (_ <=? _); [apply assign_system_down_time | done].
Qed.

Lemma recover_one_total_failure_cost r s :
  total_failure_cost (recover_one r s) = total_failure_cost s.
Proof.
  unfold recover_one. destruct (deref s r) as [c|]; [|done].
  destruct (status c), (down_since c); try done.
  destruct (_ <=? _); [apply assign_total_failure_cost | done].
Qed.

Lemma deref_recover_one r r' s :
  deref (recover_one r s) r' =
  if decide (r = r') then recovered (current_time s) <$> deref s r'
  else deref s r'.
Proof.
  unfold recover_one. destruct (decide (r = r')) as [<-|Hne].
  - destruct (deref s r) as [c|] eqn:Hr; [|by rewrite Hr].
    unfold recovered. simpl.
    destruct (status c), (down_since c) as [since|]; try done.
    destruct (_ <=? _); [|done].
    by rewrite (deref_assign_eq _ _ _ _ Hr).
  - destruct (deref s r) as [c|] eqn:Hr; [|done].
    destruct (status c), (down_since c) as [since|]; try done.
    destruct (_ <=? _); [|done]. by apply deref_assign_ne.
Qed.

Lemma deref_recover_components s r :
  deref (recover_components s) r = recovered (current_time s) <$> deref s r.
Proof.
  unfold recover_components.
  rewrite (fold_pointwise recover_one (recovered (current_time s))
             (fun st => current_time st = current_time s)).
  - destruct (decide (r ∈ all_refs s)) as [Hin|Hin]; [done|].
    rewrite elem_of_all_refs in Hin.
    by destruct (deref s r); [destruct Hin; eauto|].
  - intros r0 st Hst. by rewrite recover_one_current_time.
  - intros r0 r1 st Hst. by rewrite deref_recover_one, Hst.
  - apply NoDup_all_refs.
  - done.
Qed.

(** ** The load balancer, server by server *)

Lemma serve_traffic_current_time share r s :
  current_time (serve_traffic share r s) = current_time s.
Proof.
  unfold serve_traffic. destruct (deref s r) as [c|]; [|done].
  destruct (_ <? _); simpl; by rewrite ?assign_current_time.
Qed.

Lemma deref_serve_traffic share r r' s :
  deref (serve_traffic share r s) r' =
  if decide (r = r') then served share (current_time s) <$> deref s r'
  else deref s r'.
Proof.
  unfold serve_traffic. destruct (decide (r = r')) as [<-|Hne].
  - destruct (deref s r) as [c|] eqn:Hr; [|by rewrite Hr].
    unfold served. simpl.
    destruct (4 * max_load c <? 5 * (load c + share)) eqn:H80;
      destruct (load c + share <=? max_load c) eqn:Hle;
      destruct (max_load c <? load c + share) eqn:Hov; simpl;
      rewrite ?Hov; try lia;
      rewrite ?deref_mark_down;
      (erewrite deref_assign_eq;
         [by rewrite ?assign_current_time
         | first [done | by erewrite deref_assign_eq]]).
  - destruct (deref s r) as [c|] eqn:Hr; [|done].
    destruct (_ <? _); rewrite ?deref_mark_down, !deref_assign_ne; done.
Qed.

Lemma deref_distribute_traffic total_traffic s r :
  deref (distribute_traffic total_traffic s) r =
  if decide (r ∈ active_servers s)
  then served (total_traffic `div` Z.of_nat (length (active_servers s)))
              (current_time s) <$> deref s r
  else deref s r.
Proof.
  unfold distribute_traffic.
  pose proof (fold_pointwise
    (serve_traffic (total_traffic `div` Z.of_nat (length (active_servers s))))
    (served (total_traffic `div` Z.of_nat (length (active_servers s)))
            (current_time s))
    (fun st => current_time st = current_time s)
    (active_servers s) s r) as Hfold.
  revert Hfold. generalize (NoDup_active_servers s).
  destruct (active_servers s) as [|r0 l]; intros Hnd Hfold.
  - destruct (decide (r ∈ [])) as [Hin|]; [|done].
    by apply not_elem_of_nil in Hin.
  - apply Hfold; [| |done|done].
    + intros r1 st Hst. by rewrite serve_traffic_current_time.
    + intros r1 r2 st Hst. by rewrite deref_serve_traffic, Hst.
Qed.

(** ** Relating the components of two stores *)

Section related.
Context (R : relation Component) `{!Reflexive R, !Transitive R}.

Lemma related_refl s : related R s s.
Proof. intros r. destruct (deref s r); by constructor. Qed.

Lemma related_trans s1 s2 s3 :
  related R s1 s2 → related R s2 s3 → related R s1 s3.
Proof.
  intros H12 H23 r. specialize (H12 r). specialize (H23 r).
  destruct H12; inversion H23; subst; constructor. by etrans.
Qed.

Lemma related_same_deref s s' :
  (∀ r, deref s' r = deref s r) → related R s s'.
Proof. intros H r. rewrite H. apply related_refl. Qed.

Lemma related_assign s r c c' :
  deref s r = Some c → R c c' → related R s (assign r c' s).
Proof.
  intros Hr Hc r'. destruct (decide (r = r')) as [<-|Hne].
  - rewrite Hr, (deref_assign_eq _ _ _ _ Hr). by constructor.
  - rewrite deref_assign_ne by done. apply related_refl.
Qed.

Lemma related_fold (f : CRef → State → State) l s :
  (∀ r st, related R st (f r st)) →
  related R s (fold_left (fun st r => f r st) l s).
Proof.
  intros Hf. revert s. induction l as [|r l IH]; intros s; simpl.
  - apply related_refl.
  - eapply related_trans; [apply Hf | apply IH].
Qed.

Lemma related_set_failure_timeline v s : related R s (set_failure_timeline v s).
Proof. by apply related_same_deref; intros []. Qed.

Lemma related_set_current_time v s : related R s (set_current_time v s).
Proof. by apply related_same_deref; intros []. Qed.

Lemma related_set_system_down_time v s : related R s (set_system_down_time v s).
Proof. by apply related_same_deref; intros []. Qed.

Lemma related_set_total_failure_cost v s :
  related R s (set_total_failure_cost v s).
Proof. by apply related_same_deref; intros []. Qed.

Lemma related_mark_down s r c c0 cause :
  deref s r = Some c0 →
  R c0 (set_down_since (Some (current_time s)) (set_status DOWN c)) →
  related R s (mark_down r c cause s).
Proof.
  intros Hr Hc. unfold mark_down.
  eapply related_trans; [|apply related_set_failure_timeline].
  by eapply related_assign.
Qed.

(** The three kinds of change the engine makes to a component before
    recovery: it goes down, its load changes while it is up, it is
    flagged degraded while it is up and within capacity. *)
Hypothesis R_down : ∀ c l t,
  R c (set_down_since (Some t) (set_status DOWN (set_load l c))).
Hypothesis R_load : ∀ c l, status c = UP → R c (set_load l c).
Hypothesis R_degraded : ∀ c l,
  status c = UP → l ≤ max_load c → R c (set_degraded true (set_load l c)).

Lemma related_inject_failure r s : related R s (inject_failure r s).
Proof.
  unfold inject_failure. destruct (deref s r) as [c|] eqn:Hr.
  - eapply related_mark_down; [done|].
    specialize (R_down c (load c) (current_time s)). by destruct c.
  - apply related_refl.
Qed.

Lemma related_update_component r s : related R s (update_component r s).
Proof.
  unfold update_component. destruct (deref s r) as [c|] eqn:Hr;
    [|apply related_refl].
  unfold is_down. case_bool_decide as Hst; [apply related_refl|].
  assert (status c = UP) as Hup by (by destruct (status c)).
  set (l := fold_left _ _ _).
  assert (related R s (assign r (set_load l c) s)) as H1
    by (eapply related_assign; [done | by apply R_load]).
  destruct (_ <? _); [|done].
  unfold mark_down.
  eapply related_trans; [|apply related_set_failure_timeline].
  intros r'. destruct (decide (r = r')) as [<-|Hne].
  - rewrite Hr.
    erewrite deref_assign_eq; [|by erewrite deref_assign_eq].
    constructor. rewrite assign_current_time. apply R_down.
  - rewrite !deref_assign_ne by done. apply related_refl.
Qed.

Lemma related_distribute_traffic total_traffic s :
  related R s (distribute_traffic total_traffic s).
Proof.
  intros r. rewrite deref_distribute_traffic.
  destruct (decide (r ∈ active_servers s)) as [Hin|]; [|apply related_refl].
  apply elem_of_active_servers in Hin as [_ Hup]. unfold ref_up in Hup.
  destruct (deref s r) as [c|]; [|done]. constructor.
  apply bool_decide_eq_true in Hup. unfold served.
  destruct (max_load c <? _) eqn:Hov; [apply R_down|].
  destruct (4 * max_load c <? _); [|by apply R_load].
  apply R_degraded; [done | lia].
Qed.

Lemma related_accrue_cost s : related R s (accrue_cost s).
Proof. apply related_set_total_failure_cost. Qed.

Lemma related_record_system_down s : related R s (record_system_down s).
Proof.
  unfold record_system_down.
  destruct (andb _ _); [apply related_set_system_down_time | apply related_refl].
Qed.

(** Everything an iteration does before it runs the recovery loop. *)
Lemma related_before_recovery t s :
  related R s
    (record_system_down (accrue_cost (distribute_traffic 120
       (update_servers (update_databases (set_current_time t s)))))).
Proof.
  eapply related_trans; [|apply related_record_system_down].
  eapply related_trans; [|apply related_accrue_cost].
  eapply related_trans; [|apply related_distribute_traffic].
  eapply related_trans;
    [|apply (related_fold update_component), related_update_component].
  eapply related_trans;
    [|apply (related_fold update_component), related_update_component].
  apply related_set_current_time.
Qed.

Hypothesis R_recovered : ∀ t c, R c (recovered t c).

Lemma related_recover_components s : related R s (recover_components s).
Proof.
  intros r. rewrite deref_recover_components.
  destruct (deref s r); constructor. apply R_recovered.
Qed.

Lemma related_simulate_iteration t s : related R s (simulate_iteration t s).
Proof.
  unfold simulate_iteration.
  eapply related_trans; [|apply related_recover_components].
  apply related_before_recovery.
Qed.

Lemma related_simulate time_steps s : related R s (simulate time_steps s).
Proof.
  unfold simulate. generalize (range1 time_steps). intros l. revert s.
  induction l as [|t l IH]; intros s; simpl; [apply related_refl|].
  eapply related_trans; [apply related_simulate_iteration | apply IH].
Qed.

End related.

Lemma all_components_related (R : relation Component) (P : Component → Prop) s s' :
  (∀ c c', R c c' → P c → P c') →
  related R s s' → all_components P s → all_components P s'.
Proof.
  intros HRP Hrel HP r c' Hr'. specialize (Hrel r). rewrite Hr' in Hrel.
  inversion Hrel as [c ? Hc Heq|]; subst. eapply HRP; [done|].
  by eapply HP.
Qed.

(** ** Reset, object by object *)

Lemma reset_component_frame r s :
  failure_timeline (reset_component r s) = failure_timeline s ∧
  current_time (reset_component r s) = current_time s ∧
  system_down_time (reset_component r s) = system_down_time s ∧
  total_failure_cost (reset_component r s) = total_failure_cost s.
Proof.
  unfold reset_component. destruct (deref s r); [|done]. by destruct r.
Qed.

Lemma deref_reset_component r r' s :
  deref (reset_component r s) r' =
  if decide (r = r') then cleared <$> deref s r' else deref s r'.
Proof.
  unfold reset_component. destruct (decide (r = r')) as [<-|Hne].
  - destruct (deref s r) as [c|] eqn:Hr; [|by rewrite Hr].
    by rewrite (deref_assign_eq _ _ _ _ Hr).
  - destruct (deref s r); [by apply deref_assign_ne | done].
Qed.

Lemma deref_reset_system s r : deref (reset_system s) r = cleared <$> deref s r.
Proof.
  unfold reset_system.
  set (s0 := set_total_failure_cost _ _).
  assert (∀ r, deref s0 r = deref s r) as Hs0 by (by intros []).
  rewrite (fold_pointwise reset_component cleared (fun _ => True));
    [|done|intros; apply deref_reset_component|apply NoDup_all_refs|done].
  rewrite Hs0. destruct (decide (r ∈ all_refs s0)) as [Hin|Hin]; [done|].
  rewrite elem_of_all_refs, Hs0 in Hin.
  by destruct (deref s r); [destruct Hin; eauto|].
Qed.

Lemma reset_system_globals s :
  failure_timeline (reset_system s) = [] ∧
  current_time (reset_system s) = 0 ∧
  system_down_time (reset_system s) = None ∧
  total_failure_cost (reset_system s) = 0.
Proof.
  unfold reset_system. repeat split.
  - by rewrite (fold_frame failure_timeline)
      by (intros; apply reset_component_frame).
  - by rewrite (fold_frame current_time)
      by (intros; apply reset_component_frame).
  - by rewrite (fold_frame system_down_time)
      by (intros; apply reset_component_frame).
  - by rewrite (fold_frame total_failure_cost)
      by (intros; apply reset_component_frame).
Qed.

(** ** Invariants of the reachable states *)

Lemma all_components_initial_state (P : Component → Prop) :
  Forall P (components initial_state) → all_components P initial_state.
Proof.
  intros H r c Hr. rewrite Forall_forall in H. apply H.
  destruct r as [|i|i]; simpl in Hr.
  - injection Hr as <-. apply list_elem_of_here.
  - apply list_elem_of_further, elem_of_app. left.
    by eapply list_elem_of_lookup_2.
  - apply list_elem_of_further, elem_of_app. right.
    by eapply list_elem_of_lookup_2.
Qed.

(** A property of single components that holds at setup and survives
    each kind of change the engine makes holds in every reachable
    state. *)
Lemma reachable_all_components (P : Component → Prop) :
  Forall P (components initial_state) →
  (∀ c l t, P c → P (set_down_since (Some t) (set_status DOWN (set_load l c)))) →
  (∀ c l, status c = UP → P c → P (set_load l c)) →
  (∀ c l, status c = UP → l ≤ max_load c → P c →
          P (set_degraded true (set_load l c))) →
  (∀ t c, P c → P (recovered t c)) →
  (∀ c, P c → P (cleared c)) →
  ∀ s, reachable s → all_components P s.
Proof.
  intros Hinit Hdown Hload Hdegr Hrec Hclr s Hs.
  set (R := fun c c' : Component => P c → P c').
  assert (Reflexive R) by (intros c Hc; exact Hc).
  assert (Transitive R) by (intros c1 c2 c3 H12 H23 H1; exact (H23 (H12 H1))).
  induction Hs as [|s r Hs IH Hr|s n Hs IH|s Hs IH].
  - by apply all_components_initial_state.
  - eapply (all_components_related R); [|apply related_inject_failure|];
      unfold R; auto.
  - eapply (all_components_related R); [|apply related_simulate|];
      unfold R; auto.
  - intros r c' Hr'. rewrite deref_reset_system in Hr'.
    destruct (deref s r) as [c|] eqn:Hr; [|done].
    injection Hr' as <-. apply Hclr. by eapply IH.
Qed.

(** ** [down_since] and [status] *)

(** C9: in every state reachable from the setup through injections,
    simulation runs and resets, a component has a [down_since] time
    exactly when its status is DOWN. *)
Theorem down_since_iff_down s r c :
  reachable s → deref s r = Some c →
  (is_Some (down_since c) ↔ status c = DOWN).
Proof.
  intros Hs Hr.
  apply (reachable_all_components
           (fun c => is_Some (down_since c) ↔ status c = DOWN)) with s r;
    [ | | | | | |exact Hs|exact Hr].
  - vm_compute. repeat apply Forall_cons_2; try apply Forall_nil_2;
      (split; [by intros [? ?] | done]).
  - intros; simpl. split; eauto.
  - intros; by simpl.
  - intros; by simpl.
  - intros t c0 H0. unfold recovered.
    destruct (status c0) eqn:Hst, (down_since c0) eqn:Hds;
      rewrite ?Hst, ?Hds; try done.
    destruct (_ <=? _); simpl; [|by rewrite Hst, Hds].
    split; [by intros [? ?] | done].
  - intros c0 _. simpl. split; [by intros [? ?] | done].
Qed.

Lemma down_since_iff_down_witness :
  ∃ c, deref (simulate 3 network_outage) (RDatabase 0) = Some c ∧
       (is_Some (down_since c) ↔ status c = DOWN).
Proof.
  eexists. split; [vm_compute; reflexivity|].
  apply (down_since_iff_down (simulate 3 network_outage) (RDatabase 0)).
  - apply reachable_simulate, reachable_inject;
      [apply reachable_reset, reachable_initial | vm_compute; eauto].
  - vm_compute; reflexivity.
Defined.

(** ** Recovery *)

(** C6: the recovery loop brings a DOWN component with a [down_since]
    time back UP exactly when [current_time - down_since >= recovery_time];
    it then zeroes the load, clears [degraded] and [down_since] and
    appends the duration, which is at least the component's
    [recovery_time], to [recovery_history]; any other component is left
    as it is.  Hence, in reachable states, every entry of a
    [recovery_history] is at least the owner's [recovery_time]. *)
Theorem recover_components_spec s r c :
  deref s r = Some c →
  ∃ c', deref (recover_components s) r = Some c' ∧
    (∀ since,
       status c = DOWN → down_since c = Some since →
       recovery_time c ≤ current_time s - since →
       status c' = UP ∧ load c' = 0 ∧ degraded c' = false ∧
       down_since c' = None ∧
       recovery_history c' = recovery_history c ++ [current_time s - since] ∧
       recovery_time c' = recovery_time c ∧
       recovery_time c' ≤ current_time s - since ∧
       name c' = name c ∧ max_load c' = max_load c ∧
       cost_per_step c' = cost_per_step c ∧
       dependencies c' = dependencies c) ∧
    (¬ (status c = DOWN ∧ ∃ since, down_since c = Some since ∧
          recovery_time c ≤ current_time s - since) → c' = c) ∧
    (reachable s →
       Forall (fun d => recovery_time c ≤ d) (recovery_history c) ∧
       Forall (fun d => recovery_time c' ≤ d) (recovery_history c')).
Proof.
  intros Hr. exists (recovered (current_time s) c).
  split; [by rewrite deref_recover_components, Hr|].
  split; [|split].
  - intros since Hst Hds Hle. unfold recovered. rewrite Hst, Hds.
    destruct (_ <=? _) eqn:Hb; [done | lia].
  - intros Hne. unfold recovered.
    destruct (status c) eqn:Hst; [done|].
    destruct (down_since c) as [since|] eqn:Hds; [|done].
    destruct (_ <=? _) eqn:Hb; [|done].
    destruct Hne. split; [done|]. exists since. split; [done | lia].
  - intros Hs.
    set (P := fun c : Component =>
                Forall (fun d => recovery_time c ≤ d) (recovery_history c)).
    assert (∀ t c0, P c0 → P (recovered t c0)) as Hrec.
    { intros t c0 H0. unfold recovered, P.
      destruct (status c0); [done|].
      destruct (down_since c0) as [since|]; [|done].
      destruct (_ <=? _) eqn:Hb; [|done]. simpl.
      apply Forall_app. split; [done|]. constructor; [lia | constructor]. }
    assert (P c) as Hc.
    { apply (reachable_all_components P) with s r; try done.
      repeat constructor. }
    split; [done | by apply Hrec].
Qed.

Lemma recover_components_spec_witness :
  ∃ c', deref (recover_components
                 (record_system_down (accrue_cost (distribute_traffic 120
                    (update_servers (update_databases
                       (set_current_time 3 (simulate 2 network_outage))))))))
              RNetwork = Some c' ∧
        status c' = UP ∧ recovery_history c' = [3].
Proof.
  destruct (recover_components_spec
    (record_system_down (accrue_cost (distribute_traffic 120
       (update_servers (update_databases
          (set_current_time 3 (simulate 2 network_outage)))))))
    RNetwork
    {| name := "Network"; max_load := 80; cost_per_step := 5000; load := 0;
       status := DOWN; dependencies := []; down_since := Some 0;
       recovery_time := 3; recovery_history := []; degraded := false |})
    as (c' & Hc' & Hrec & _).
  - vm_compute; reflexivity.
  - exists c'. split; [exact Hc'|].
    destruct (Hrec 0) as (Hst & _ & _ & _ & Hh & _).
    + reflexivity.
    + reflexivity.
    + vm_compute. discriminate.
    + split; [exact Hst | exact Hh].
Defined.

(** ** Reset *)

(** What [reset_system] of main.py restores: the four tracking
    variables, and the status, load, [down_since] and [degraded] of each
    component; [recovery_history] is not among the attributes it
    assigns. *)
Lemma reset_system_spec s r c :
  deref s r = Some c →
  deref (reset_system s) r = Some (cleared c) ∧
  failure_timeline (reset_system s) = [] ∧
  current_time (reset_system s) = 0 ∧
  system_down_time (reset_system s) = None ∧
  total_failure_cost (reset_system s) = 0.
Proof.
  intros Hr. split; [by rewrite deref_reset_system, Hr|].
  apply reset_system_globals.
Qed.

(** [reset_system] of dashboard.py rebuilds the components, so that every
    history is empty again. *)
Lemma Dashboard_reset_system_baseline d :
  Dashboard.reset_system d = Dashboard.init_system ∧
  Forall (fun c => Dashboard.status c = UP ∧ Dashboard.load c = 0 ∧
                   Dashboard.down_since c = None ∧
                   Dashboard.recovery_history c = [])
         (Dashboard.components (Dashboard.reset_system d)) ∧
  Dashboard.time (Dashboard.reset_system d) = 0 ∧
  Dashboard.cost_total (Dashboard.reset_system d) = 0.
Proof.
  split; [done|]. split; [|done].
  vm_compute. by repeat apply Forall_cons_2; try apply Forall_nil_2.
Qed.

(** C1: a reset followed by zero steps should give back the baseline of
    the initial construction, empty recovery histories included.  In
    main.py it does not: after the network has failed at time 0 and
    recovered during a run of three steps, [reset_system] followed by a
    run of zero steps leaves the network with the recovery history [3],
    where the baseline has the empty one, and the mean time to recovery
    of the next trial starts from 3 instead of 0. *)
Theorem reset_system_keeps_recovery_history :
  let s := simulate 0 (reset_system (simulate 3 network_outage)) in
  recovery_history (network s) = [3] ∧
  recovery_history (network baseline) = [] ∧
  s ≠ baseline ∧
  calculate_mttr s = 3%Q ∧
  calculate_mttr baseline = 0%Q.
Proof.
  vm_compute. repeat split; try reflexivity. discriminate.
Qed.

(** ** Injection *)

(** [inject_failure] of main.py on a component that is already DOWN
    keeps its status and load and overwrites [down_since] with the
    current time. *)
Lemma inject_failure_on_down s r c :
  deref s r = Some c → status c = DOWN →
  deref (inject_failure r s) r = Some (set_down_since (Some (current_time s)) c).
Proof.
  intros Hr Hst. unfold inject_failure. rewrite Hr, deref_mark_down.
  rewrite (deref_assign_eq _ _ _ _ Hr). f_equal.
  destruct c; simpl in *; by subst.
Qed.

(** [inject_failure] of dashboard.py on a component that is already DOWN
    changes nothing. *)
Lemma Dashboard_inject_failure_on_down d r c :
  Dashboard.deref d r = Some c → Dashboard.status c = DOWN →
  Dashboard.inject_failure r d = d.
Proof.
  intros Hr Hst. unfold Dashboard.inject_failure. rewrite Hr.
  by rewrite bool_decide_eq_false_2 by (by rewrite Hst).
Qed.


(** ** System checks *)

(** C4: [system_down] holds exactly when every database is DOWN or every
    server is DOWN, in main.py and in dashboard.py alike; in particular
    it holds when all databases are DOWN, whatever the network and the
    servers are. *)
Theorem system_down_iff s d :
  (system_down s = true ↔
     (∀ db, db ∈ databases s → status db = DOWN) ∨
     (∀ srv, srv ∈ servers s → status srv = DOWN)) ∧
  (∀ net srvs tl t sdt cost,
     (∀ db, db ∈ databases s → status db = DOWN) →
     system_down
       {| network := net; databases := databases s; servers := srvs;
          failure_timeline := tl; current_time := t;
          system_down_time := sdt; total_failure_cost := cost |} = true) ∧
  (Dashboard.system_down d = true ↔
     (∀ db, db ∈ Dashboard.databases d → Dashboard.status db = DOWN) ∨
     (∀ srv, srv ∈ Dashboard.servers d → Dashboard.status srv = DOWN)).
Proof.
  assert (∀ l, forallb is_down l = true ↔ ∀ c, c ∈ l → status c = DOWN) as Hall.
  { intros l. rewrite forallb_forall. unfold is_down.
    split; intros H c Hc.
    - apply list_elem_of_In, H in Hc. by apply bool_decide_eq_true in Hc.
    - apply bool_decide_eq_true, H. by apply list_elem_of_In. }
  split; [|split].
  - unfold system_down. by rewrite orb_true_iff, !Hall.
  - intros net srvs tl t sdt cost Hdb. unfold system_down. simpl.
    apply orb_true_iff. left. by apply Hall.
  - unfold Dashboard.system_down. rewrite orb_true_iff, !forallb_forall.
    split; (intros [H|H]; [left|right]); intros c Hc.
    + apply list_elem_of_In, H in Hc. by apply bool_decide_eq_true in Hc.
    + apply list_elem_of_In, H in Hc. by apply bool_decide_eq_true in Hc.
    + apply bool_decide_eq_true, H. by apply list_elem_of_In.
    + apply bool_decide_eq_true, H. by apply list_elem_of_In.
Qed.

Lemma system_down_iff_witness :
  system_down
    {| network := network baseline;
       databases := databases (simulate 3 network_outage);
       servers := servers baseline;
       failure_timeline := []; current_time := 0;
       system_down_time := None; total_failure_cost := 0 |} = true.
Proof.
  destruct (system_down_iff (simulate 3 network_outage) Dashboard.init_system)
    as (_ & Hdb & _).
  apply Hdb. vm_compute.
  intros db Hdb'. repeat (apply elem_of_cons in Hdb' as [->|Hdb']; [reflexivity|]).
  by apply not_elem_of_nil in Hdb'.
Defined.

(** ** The network outage scenario *)

(** C7: with the default parameters, after a failure of the network is
    injected at time 0, the first step leaves both databases UP with
    load exactly 50, and the network, still DOWN after the second step,
    is UP again after the third, with a recovery of duration 3 on
    record. *)
Theorem network_outage_scenario :
  down_since (network network_outage) = Some 0 ∧
  (fun db => (status db, load db)) <$> databases (simulate 1 network_outage)
    = [(UP, 50); (UP, 50)] ∧
  status (network (simulate 2 network_outage)) = DOWN ∧
  status (network (simulate 3 network_outage)) = UP ∧
  recovery_history (network (simulate 3 network_outage)) = [3].
Proof. vm_compute. by repeat split. Qed.

(** ** The [degraded] flag *)

Lemma related_deref (R : relation Component) s s' r c c' :
  related R s s' → deref s r = Some c → deref s' r = Some c' → R c c'.
Proof.
  intros Hrel Hr Hr'. specialize (Hrel r). rewrite Hr, Hr' in Hrel.
  by inversion Hrel.
Qed.

(** C10: only recovery (and [reset_system]) clears [degraded].  Failure
    injection and dependency propagation leave the flag of every
    component as it is; the load balancer can set it but never clears
    it, and leaves it as it is on a component that it takes DOWN; so
    after a whole iteration a component that was degraded is still
    degraded unless the iteration has just recovered it, and one that
    is DOWN after the iteration is still degraded. *)
Theorem degraded_cleared_only_by_recovery s r c :
  deref s r = Some c →
  (∀ r0 c', deref (inject_failure r0 s) r = Some c' →
            degraded c' = degraded c) ∧
  (∀ r0 c', deref (update_component r0 s) r = Some c' →
            degraded c' = degraded c) ∧
  (∀ total_traffic c',
     deref (distribute_traffic total_traffic s) r = Some c' →
     (degraded c = true → degraded c' = true) ∧
     (status c' = DOWN → degraded c' = degraded c)) ∧
  (∀ t c',
     deref (simulate_iteration t s) r = Some c' → degraded c = true →
     (degraded c' = true ∨
      (status c' = UP ∧ load c' = 0 ∧ down_since c' = None)) ∧
     (status c' = DOWN → degraded c' = true)).
Proof.
  intros Hr.
  set (Rsame := fun c c' : Component => degraded c' = degraded c).
  set (Rkeep := fun c c' : Component => degraded c = true → degraded c' = true).
  assert (Reflexive Rsame) by (intros ?; reflexivity).
  assert (Transitive Rsame) by (intros ? ? ? H12 H23; unfold Rsame in *; congruence).
  assert (Reflexive Rkeep) by (intros ? Hd; exact Hd).
  assert (Transitive Rkeep) by (intros ? ? ? H12 H23 Hd; exact (H23 (H12 Hd))).
  split; [|split; [|split]].
  - intros r0 c' Hr'.
    apply (related_deref Rsame s (inject_failure r0 s) r); [|done|done].
    by apply related_inject_failure.
  - intros r0 c' Hr'.
    apply (related_deref Rsame s (update_component r0 s) r); [|done|done].
    by apply related_update_component.
  - intros total_traffic c' Hr'. rewrite deref_distribute_traffic, Hr in Hr'.
    destruct (decide _) as [Hin|_]; [|by simplify_eq].
    apply elem_of_active_servers in Hin as [_ Hup].
    unfold ref_up in Hup. rewrite Hr in Hup.
    apply bool_decide_eq_true in Hup.
    simpl in Hr'. injection Hr' as <-. unfold served.
    destruct (max_load c <? _); [done|].
    destruct (4 * max_load c <? _); simpl; rewrite Hup; done.
  - intros t c' Hr' Hdeg.
    change (simulate_iteration t s) with
      (recover_components (record_system_down (accrue_cost
         (distribute_traffic 120
            (update_servers (update_databases (set_current_time t s))))))) in Hr'.
    rewrite deref_recover_components in Hr'.
    assert (related Rkeep s (record_system_down (accrue_cost
         (distribute_traffic 120
            (update_servers (update_databases (set_current_time t s)))))))
      as Hrel.
    { apply related_before_recovery; try done; unfold Rkeep; by intros. }
    set (s1 := record_system_down _) in *.
    destruct (deref s1 r) as [c1|] eqn:Hr1; [|done].
    simpl in Hr'. injection Hr' as <-.
    assert (degraded c1 = true) as Hdeg1
      by (by apply (related_deref Rkeep s s1 r c c1)).
    unfold recovered.
    destruct (status c1) eqn:Hst; [by rewrite Hst; auto|].
    destruct (down_since c1); [|by rewrite Hst; auto].
    destruct (_ <=? _); simpl; [|by rewrite Hst; auto].
    split; [by right | done].
Qed.

Lemma degraded_cleared_only_by_recovery_witness :
  ∃ c c',
    deref (simulate 2 baseline) (RServer 0) = Some c ∧
    deref (simulate_iteration 3 (simulate 2 baseline)) (RServer 0) = Some c' ∧
    status c = UP ∧ degraded c = true ∧
    status c' = DOWN ∧ degraded c' = true.
Proof.
  set (c := {| name := "WebServer-1"; max_load := 120; cost_per_step := 15000;
               load := 120; status := UP;
               dependencies := [RDatabase 0; RDatabase 1];
               down_since := None; recovery_time := 1;
               recovery_history := []; degraded := true |}).
  set (c' := {| name := "WebServer-1"; max_load := 120; cost_per_step := 15000;
                load := 180; status := DOWN;
                dependencies := [RDatabase 0; RDatabase 1];
                down_since := Some 3; recovery_time := 1;
                recovery_history := []; degraded := true |}).
  destruct (degraded_cleared_only_by_recovery (simulate 2 baseline) (RServer 0) c)
    as (_ & _ & _ & Hiter); [vm_compute; reflexivity|].
  destruct (Hiter 3 c') as [_ Hdown];
    [vm_compute; reflexivity | reflexivity |].
  exists c, c'.
  split; [vm_compute; reflexivity|].
  split; [vm_compute; reflexivity|].
  split; [reflexivity|]. split; [reflexivity|]. split; [reflexivity|].
  apply Hdown. reflexivity.
Defined.

(** ** The driver loop *)

Lemma update_component_driver_variables r s :
  driver_variables (update_component r s) = driver_variables s.
Proof.
  unfold update_component. destruct (deref s r) as [c|]; [|done].
  destruct (is_down c); [done|].
  destruct (_ <? _); by destruct r.
Qed.

Lemma update_databases_driver_variables s :
  driver_variables (update_databases s) = driver_variables s.
Proof. apply fold_frame, update_component_driver_variables. Qed.

Lemma update_servers_driver_variables s :
  driver_variables (update_servers s) = driver_variables s.
Proof. apply fold_frame, update_component_driver_variables. Qed.

Lemma serve_traffic_driver_variables share r s :
  driver_variables (serve_traffic share r s) = driver_variables s.
Proof.
  unfold serve_traffic. destruct (deref s r) as [c|]; [|done].
  destruct (_ <? _); by destruct r.
Qed.

Lemma distribute_traffic_driver_variables total_traffic s :
  driver_variables (distribute_traffic total_traffic s) = driver_variables s.
Proof.
  unfold distribute_traffic. destruct (active_servers s) as [|r l]; [done|].
  apply (fold_frame driver_variables), serve_traffic_driver_variables.
Qed.

Lemma recover_components_driver_variables s :
  driver_variables (recover_components s) = driver_variables s.
Proof.
  apply fold_frame. intros r st. unfold driver_variables.
  by rewrite recover_one_current_time, recover_one_system_down_time,
    recover_one_total_failure_cost.
Qed.

Lemma accrue_cost_total s :
  total_failure_cost (accrue_cost s) = total_failure_cost s + failed_cost s.
Proof.
  unfold accrue_cost, failed_cost.
  change (total_failure_cost (set_total_failure_cost ?v _)) with v.
  generalize (total_failure_cost s). generalize (components s).
  induction l as [|c l IH]; intros acc; simpl; [lia|].
  rewrite IH. unfold is_down. rewrite filter_cons.
  destruct (decide (status c = DOWN)) as [Hst|Hst].
  - rewrite bool_decide_eq_true_2 by done.
    rewrite fmap_cons. cbn [foldr]. lia.
  - by rewrite bool_decide_eq_false_2 by done.
Qed.

Lemma simulate_snoc (n : nat) s :
  simulate (Z.of_nat n + 1) s =
  simulate_iteration (Z.of_nat n + 1) (simulate (Z.of_nat n) s).
Proof.
  unfold simulate, range1.
  replace (Z.to_nat (Z.of_nat n + 1)) with (n + 1)%nat by lia.
  rewrite Nat2Z.id, seq_app, fmap_app, fold_left_app. simpl.
  do 2 f_equal. lia.
Qed.

Lemma simulate_iteration_driver_variables t s :
  let balanced :=
    distribute_traffic 120
      (update_servers (update_databases (set_current_time t s))) in
  current_time (simulate_iteration t s) = t ∧
  total_failure_cost (simulate_iteration t s) =
    total_failure_cost s + failed_cost balanced ∧
  system_down_time (simulate_iteration t s) =
    match system_down_time s with
    | Some d => Some d
    | None => if system_down balanced then Some t else None
    end.
Proof.
  intros balanced.
  assert (driver_variables balanced =
          (t, system_down_time s, total_failure_cost s)) as Hbal.
  { unfold balanced.
    by rewrite distribute_traffic_driver_variables,
      update_servers_driver_variables, update_databases_driver_variables. }
  injection Hbal as Ht Hsdt Hcost.
  change (simulate_iteration t s) with
    (recover_components (record_system_down (accrue_cost balanced))).
  pose proof (recover_components_driver_variables
                (record_system_down (accrue_cost balanced))) as Hrec.
  injection Hrec as -> -> ->.
  pose proof (accrue_cost_total balanced) as Hacc.
  unfold record_system_down.
  change (system_down (accrue_cost balanced)) with (system_down balanced).
  change (system_down_time (accrue_cost balanced))
    with (system_down_time balanced).
  rewrite Hsdt.
  destruct (system_down_time s) as [d|] eqn:Hd.
  - rewrite bool_decide_eq_false_2, andb_false_r by done.
    split; [exact Ht|]. split; [by rewrite Hacc, Hcost | exact Hsdt].
  - rewrite bool_decide_eq_true_2, andb_true_r by done.
    destruct (system_down balanced).
    + split; [exact Ht|]. split; [by rewrite <-Hcost; exact Hacc|].
      exact (f_equal Some Ht).
    + split; [exact Ht|]. split; [by rewrite Hacc, Hcost | exact Hsdt].
Qed.

Lemma Dashboard_update_component_time r d :
  Dashboard.time (Dashboard.update_component r d) = Dashboard.time d.
Proof.
  unfold Dashboard.update_component.
  destruct (Dashboard.deref d r) as [c|]; [|done].
  destruct (negb _); [done|]. destruct (_ <? _); by destruct r.
Qed.

Lemma Dashboard_recover_one_time r d :
  Dashboard.time (Dashboard.recover_one r d) = Dashboard.time d.
Proof.
  unfold Dashboard.recover_one.
  destruct (Dashboard.deref d r) as [c|]; [|done].
  destruct (Dashboard.status c), (Dashboard.down_since c); try done.
  destruct (_ <=? _); [by destruct r | done].
Qed.

Lemma Dashboard_simulate_step_time d :
  Dashboard.time (Dashboard.simulate_step d) = Dashboard.time d + 1.
Proof.
  change (Dashboard.time (Dashboard.simulate_step d)) with
    (Dashboard.time
       (Dashboard.recover_components
          (Dashboard.update_servers
             (Dashboard.update_databases (Dashboard.tick d))))).
  unfold Dashboard.recover_components.
  rewrite (fold_frame Dashboard.time Dashboard.recover_one)
    by apply Dashboard_recover_one_time.
  unfold Dashboard.update_servers.
  rewrite (fold_frame Dashboard.time Dashboard.update_component)
    by apply Dashboard_update_component_time.
  unfold Dashboard.update_databases.
  by rewrite (fold_frame Dashboard.time Dashboard.update_component)
    by apply Dashboard_update_component_time.
Qed.

(** C3, as stated, fails on the code: an iteration of [simulate] does
    not add 1 to the time it finds, it sets the time to its loop
    variable, so that a run started at time 3 has time 1 after its
    first step; and a step of the dashboard distributes no traffic
    (from the baseline the servers stay at load 0, where an iteration
    of main.py leaves them at 60). *)
Lemma simulate_restarts_clock :
  current_time (simulate 3 baseline) = 3 ∧
  current_time (simulate 1 (simulate 3 baseline))
    ≠ current_time (simulate 3 baseline) + 1 ∧
  load <$> servers (simulate 1 baseline) = [60; 60] ∧
  Dashboard.load <$>
    Dashboard.servers (Dashboard.simulate_step Dashboard.init_system) = [0; 0].
Proof. vm_compute. repeat split; try reflexivity. discriminate. Qed.

(** C3, amended: the step numbered [n + 1] of a run of [simulate] sets
    the time to [n + 1], which is the previous time plus 1 whenever the
    run started at time 0 (as it does after [reset_system]), and then
    propagates over the databases, then over the servers, distributes
    the traffic, charges the [cost_per_step] of every component that is
    DOWN at that point, records the time as the system-down time if the
    system is down and none was recorded, and runs the recovery loop
    last.  A step of the dashboard adds 1 to the time, propagates over
    the databases, then over the servers, runs the recovery loop and
    only then charges the costs. *)
Theorem simulate_step_order (n : nat) s d :
  let before := simulate (Z.of_nat n) s in
  let t := Z.of_nat n + 1 in
  let propagated :=
    update_servers (update_databases (set_current_time t before)) in
  let balanced := distribute_traffic 120 propagated in
  simulate t s =
    recover_components (record_system_down (accrue_cost balanced)) ∧
  current_time (simulate t s) = t ∧
  (current_time s = 0 → current_time (simulate t s) = current_time before + 1) ∧
  total_failure_cost (simulate t s) =
    total_failure_cost before + failed_cost balanced ∧
  system_down_time (simulate t s) =
    match system_down_time before with
    | Some down => Some down
    | None => if system_down balanced then Some t else None
    end ∧
  Dashboard.simulate_step d =
    Dashboard.accrue_cost
      (Dashboard.recover_components
         (Dashboard.update_servers
            (Dashboard.update_databases (Dashboard.tick d)))) ∧
  Dashboard.time (Dashboard.simulate_step d) = Dashboard.time d + 1.
Proof.
  intros before t propagated balanced.
  assert (simulate t s = simulate_iteration t before) as ->
    by apply simulate_snoc.
  destruct (simulate_iteration_driver_variables t before) as (Ht & Hcost & Hsdt).
  split; [done|]. split; [done|]. split.
  - intros Hs0. rewrite Ht. unfold t, before.
    destruct n as [|n];
      [change (0 + 1 = current_time s + 1); by rewrite Hs0|].
    replace (Z.of_nat (S n)) with (Z.of_nat n + 1) by lia.
    rewrite simulate_snoc.
    by destruct (simulate_iteration_driver_variables (Z.of_nat n + 1)
                   (simulate (Z.of_nat n) s)) as (-> & _ & _).
  - split; [exact Hcost|]. split; [exact Hsdt|]. split; [reflexivity|].
    apply Dashboard_simulate_step_time.
Qed.

Lemma simulate_step_order_witness :
  current_time (simulate 3 network_outage)
    = current_time (simulate 2 network_outage) + 1 ∧
  total_failure_cost (simulate 3 network_outage) = 10000 + 75000.
Proof.
  destruct (simulate_step_order 2 network_outage Dashboard.init_system)
    as (_ & _ & Htime & Hcost & _).
  split.
  - apply Htime. vm_compute; reflexivity.
  - etrans; [exact Hcost|]. vm_compute; reflexivity.
Defined.

(** ** Metrics *)


(** A run that starts with no system-down time on record records none
    later than its last step. *)
Lemma simulate_system_down_time (n : nat) s t :
  system_down_time s = None →
  system_down_time (simulate (Z.of_nat n) s) = Some t →
  1 ≤ t ≤ Z.of_nat n.
Proof.
  intros Hnone. revert t. induction n as [|n IH]; intros t Ht.
  - change (simulate (Z.of_nat 0) s) with s in Ht. congruence.
  - replace (Z.of_nat (S n)) with (Z.of_nat n + 1) in * by lia.
    rewrite simulate_snoc in Ht.
    destruct (simulate_iteration_driver_variables (Z.of_nat n + 1)
                (simulate (Z.of_nat n) s)) as (_ & _ & Hsdt).
    rewrite Ht in Hsdt.
    destruct (system_down_time (simulate (Z.of_nat n) s)) as [d|].
    + injection Hsdt as ->. specialize (IH d eq_refl). lia.
    + destruct (system_down _); [|done]. injection Hsdt as ->. lia.
Qed.







(** * Further properties of the engine *)

(** ** Equality of states *)

Lemma state_ext s s' :
  (∀ r, deref s r = deref s' r) →
  failure_timeline s = failure_timeline s' →
  driver_variables s = driver_variables s' →
  s = s'.
Proof.
  intros Hderef Htl [= Ht Hsdt Hcost].
  destruct s as [n dbs srvs tl t sdt cst], s' as [n' dbs' srvs' tl' t' sdt' cst'].
  simpl in *. subst.
  assert (n = n') as -> by (specialize (Hderef RNetwork); by simplify_eq/=).
  assert (dbs = dbs') as ->
    by (apply list_eq; intros i; apply (Hderef (RDatabase i))).
  assert (srvs = srvs') as ->
    by (apply list_eq; intros i; apply (Hderef (RServer i))).
  done.
Qed.

Lemma deref_forget_history s r :
  deref (forget_history s) r = set_recovery_history [] <$> deref s r.
Proof. destruct r as [|i|i]; simpl; by rewrite ?list_lookup_fmap. Qed.

(** ** Reset restores everything but the recovery histories *)

(** Whatever the engine does to a component, it keeps its name, its
    capacity, its cost, its recovery time and its dependencies. *)
Lemma reachable_static_fields s r :
  reachable s →
  (fun c => set_recovery_history [] (cleared c)) <$> deref s r =
  deref initial_state r.
Proof.
  intros Hs.
  set (blank := fun c => set_recovery_history [] (cleared c)).
  set (R := fun c c' : Component => blank c' = blank c).
  assert (Reflexive R) by (intros ?; reflexivity).
  assert (Transitive R)
    by (intros ? ? ? H12 H23; unfold R in *; congruence).
  assert (∀ s s', related R s s' →
            ∀ r, blank <$> deref s' r = blank <$> deref s r) as Hrel.
  { intros s1 s2 H12 r0. specialize (H12 r0).
    destruct H12 as [c c' Hc|]; simpl; [by rewrite Hc | done]. }
  revert r. induction Hs as [|s r0 Hs IH Hr0|s n Hs IH|s Hs IH]; intros r.
  - by destruct r as [|[|[|i]]|[|[|i]]].
  - rewrite <-IH. apply Hrel. by apply related_inject_failure.
  - rewrite <-IH. apply Hrel.
    apply related_simulate; try done; unfold R; try done.
    intros t c. unfold recovered, blank.
    destruct (status c), (down_since c); try done.
    by destruct (_ <=? _).
  - rewrite <-IH, deref_reset_system. by destruct (deref s r).
Qed.

Lemma forget_history_reset_system s :
  reachable s → forget_history (reset_system s) = baseline.
Proof.
  intros Hs. apply state_ext.
  - intros r. rewrite deref_forget_history, deref_reset_system.
    unfold baseline. rewrite deref_reset_system.
    rewrite <-(reachable_static_fields s r Hs).
    rewrite <-!option_fmap_compose.
    by destruct (deref s r).
  - change (failure_timeline (forget_history ?x)) with (failure_timeline x).
    unfold baseline.
    destruct (reset_system_globals s) as (-> & _).
    by destruct (reset_system_globals initial_state) as (-> & _).
  - change (driver_variables (forget_history ?x)) with (driver_variables x).
    unfold baseline, driver_variables.
    destruct (reset_system_globals s) as (_ & -> & -> & ->).
    by destruct (reset_system_globals initial_state) as (_ & -> & -> & ->).
Qed.

(** X1: in every reachable state, [reset_system] gives back the state a
    first run starts from, except for the recovery histories, which it
    keeps: with the histories emptied, the state after a reset is the
    baseline. *)
Theorem reset_system_baseline_up_to_history s :
  reachable s →
  forget_history (reset_system s) = baseline ∧
  ∀ r, recovery_history <$> deref (reset_system s) r
       = recovery_history <$> deref s r.
Proof.
  intros Hs. split; [by apply forget_history_reset_system|].
  intros r. rewrite deref_reset_system. by destruct (deref s r).
Qed.

Lemma reset_system_baseline_up_to_history_witness :
  forget_history (reset_system (simulate 3 network_outage)) = baseline.
Proof.
  apply (reset_system_baseline_up_to_history (simulate 3 network_outage)).
  apply reachable_simulate, reachable_inject;
    [apply reachable_reset, reachable_initial | vm_compute; eauto].
Defined.

(** ** The engine does not read the recovery histories *)

Lemma forget_history_assign r c s :
  forget_history (assign r c s) =
  assign r (set_recovery_history [] c) (forget_history s).
Proof.
  destruct r as [|i|i]; unfold forget_history; simpl; f_equal;
    by rewrite list_fmap_insert.
Qed.

Lemma forget_history_refs s :
  database_refs (forget_history s) = database_refs s ∧
  server_refs (forget_history s) = server_refs s ∧
  all_refs (forget_history s) = all_refs s.
Proof.
  unfold all_refs, database_refs, server_refs. simpl.
  by rewrite !length_fmap.
Qed.

Lemma forget_history_dep_down s d :
  dep_down (forget_history s) d = dep_down s d.
Proof.
  unfold dep_down. rewrite deref_forget_history. by destruct (deref s d).
Qed.

Lemma forget_history_mark_down r c cause s :
  forget_history (mark_down r c cause s) =
  mark_down r (set_recovery_history [] c) cause (forget_history s).
Proof.
  unfold mark_down.
  change (forget_history (set_failure_timeline ?v ?x))
    with (set_failure_timeline v (forget_history x)).
  by rewrite forget_history_assign.
Qed.

Lemma forget_history_inject_failure r s :
  forget_history (inject_failure r s) = inject_failure r (forget_history s).
Proof.
  unfold inject_failure. rewrite deref_forget_history.
  destruct (deref s r) as [c|]; simpl; [|done].
  apply forget_history_mark_down.
Qed.

Lemma forget_history_update_component r s :
  forget_history (update_component r s) = update_component r (forget_history s).
Proof.
  unfold update_component. rewrite deref_forget_history.
  destruct (deref s r) as [c|]; simpl; [|done].
  change (is_down (set_recovery_history [] c)) with (is_down c).
  destruct (is_down c); [done|].
  assert (fold_left (fun acc d => if dep_down (forget_history s) d
                                  then acc + 50 else acc)
                    (dependencies c) (load c) =
          fold_left (fun acc d => if dep_down s d then acc + 50 else acc)
                    (dependencies c) (load c)) as ->.
  { generalize (load c). induction (dependencies c) as [|d l IH];
      intros acc; simpl; [done|].
    by rewrite IH, forget_history_dep_down. }
  destruct (_ <? _).
  - by rewrite forget_history_mark_down, forget_history_assign.
  - by rewrite forget_history_assign.
Qed.

Lemma forget_history_fold (op : CRef → State → State) l s :
  (∀ r st, forget_history (op r st) = op r (forget_history st)) →
  forget_history (fold_left (fun st r => op r st) l s) =
  fold_left (fun st r => op r st) l (forget_history s).
Proof.
  intros Hop. revert s. induction l as [|r l IH]; intros s; simpl; [done|].
  by rewrite IH, Hop.
Qed.

Lemma forget_history_serve_traffic share r s :
  forget_history (serve_traffic share r s) =
  serve_traffic share r (forget_history s).
Proof.
  unfold serve_traffic. rewrite deref_forget_history.
  destruct (deref s r) as [c|]; simpl; [|done].
  destruct (andb _ _); simpl; destruct (_ <? _);
    by rewrite ?forget_history_mark_down, forget_history_assign.
Qed.

Lemma forget_history_active_servers s :
  active_servers (forget_history s) = active_servers s.
Proof.
  unfold active_servers.
  destruct (forget_history_refs s) as (_ & -> & _).
  apply list_filter_iff. intros r. unfold ref_up.
  rewrite deref_forget_history. by destruct (deref s r).
Qed.

Lemma forget_history_distribute_traffic total_traffic s :
  forget_history (distribute_traffic total_traffic s) =
  distribute_traffic total_traffic (forget_history s).
Proof.
  unfold distribute_traffic. rewrite forget_history_active_servers.
  destruct (active_servers s) as [|r l]; [done|].
  apply forget_history_fold. intros. apply forget_history_serve_traffic.
Qed.

Lemma forget_history_system_down s :
  system_down (forget_history s) = system_down s.
Proof.
  unfold system_down. simpl.
  assert (∀ l, forallb is_down (set_recovery_history [] <$> l)
               = forallb is_down l) as Hl.
  { induction l as [|c l IH]; [done|].
    rewrite fmap_cons. cbn [forallb]. by rewrite IH. }
  by rewrite !Hl.
Qed.

Lemma forget_history_accrue_cost s :
  forget_history (accrue_cost s) = accrue_cost (forget_history s).
Proof.
  assert (∀ l acc,
            fold_left (fun cost comp => if is_down comp
                                        then cost + cost_per_step comp else cost)
                      (set_recovery_history [] <$> l) acc =
            fold_left (fun cost comp => if is_down comp
                                        then cost + cost_per_step comp else cost)
                      l acc) as Hl.
  { induction l as [|c l IH]; intros acc; [done|].
    rewrite fmap_cons. cbn [fold_left]. by rewrite IH. }
  unfold accrue_cost.
  change (forget_history (set_total_failure_cost ?v ?x))
    with (set_total_failure_cost v (forget_history x)).
  f_equal.
  change (total_failure_cost (forget_history s)) with (total_failure_cost s).
  replace (components (forget_history s))
    with (set_recovery_history [] <$> components s)
    by (unfold components; by rewrite !fmap_app).
  by rewrite Hl.
Qed.

Lemma forget_history_record_system_down s :
  forget_history (record_system_down s) = record_system_down (forget_history s).
Proof.
  unfold record_system_down. rewrite forget_history_system_down.
  change (system_down_time (forget_history s)) with (system_down_time s).
  by destruct (andb _ _).
Qed.

Lemma recover_one_keeps_failure_timeline r s :
  failure_timeline (recover_one r s) = failure_timeline s.
Proof.
  unfold recover_one. destruct (deref s r) as [c|]; [|done].
  destruct (status c), (down_since c); try done.
  destruct (_ <=? _); [apply assign_failure_timeline | done].
Qed.

Lemma forget_history_recover_one r s :
  forget_history (recover_one r s) =
  forget_history (recover_one r (forget_history s)).
Proof.
  apply state_ext.
  - intros r'.
    rewrite !deref_forget_history, !deref_recover_one, deref_forget_history.
    destruct (decide (r = r')) as [_|_]; [|by destruct (deref s r')].
    destruct (deref s r') as [c|]; simpl; [|done]. f_equal.
    unfold recovered. simpl.
    destruct (status c), (down_since c); try done.
    by destruct (_ <=? _).
  - change (failure_timeline (forget_history ?x)) with (failure_timeline x).
    by rewrite !recover_one_keeps_failure_timeline.
  - change (driver_variables (forget_history ?x)) with (driver_variables x).
    unfold driver_variables.
    by rewrite !recover_one_current_time, !recover_one_system_down_time,
      !recover_one_total_failure_cost.
Qed.

Lemma forget_history_idemp s :
  forget_history (forget_history s) = forget_history s.
Proof.
  unfold forget_history. simpl. f_equal; rewrite <-list_fmap_compose;
    by apply list_fmap_ext.
Qed.

Lemma forget_history_recover_components s :
  forget_history (recover_components s) =
  forget_history (recover_components (forget_history s)).
Proof.
  unfold recover_components.
  destruct (forget_history_refs s) as (_ & _ & ->).
  generalize (all_refs s). intros l. revert s.
  induction l as [|r l IH]; intros s; cbn [fold_left];
    [by rewrite forget_history_idemp|].
  rewrite IH, forget_history_recover_one, <-IH.
  symmetry. by rewrite IH, <-forget_history_recover_one, <-IH.
Qed.

Lemma forget_history_simulate_iteration t s :
  forget_history (simulate_iteration t s) =
  forget_history (simulate_iteration t (forget_history s)).
Proof.
  change (simulate_iteration t ?x) with
    (recover_components (record_system_down (accrue_cost
       (distribute_traffic 120
          (update_servers (update_databases (set_current_time t x))))))).
  rewrite forget_history_recover_components. f_equal. f_equal.
  rewrite forget_history_record_system_down, forget_history_accrue_cost,
    forget_history_distribute_traffic.
  unfold update_servers, update_databases.
  rewrite (forget_history_fold update_component)
    by apply forget_history_update_component.
  rewrite (forget_history_fold update_component)
    by apply forget_history_update_component.
  assert (∀ x, server_refs (fold_left (fun st db => update_component db st)
                              (database_refs (set_current_time t x))
                              (set_current_time t x))
               = server_refs x) as Hrefs.
  { intros x. unfold server_refs. f_equal. f_equal.
    rewrite (fold_frame (fun st => length (servers st)) update_component);
      [done|].
    intros r st. unfold update_component.
    destruct (deref st r) as [c|]; [|done]. destruct (is_down c); [done|].
    destruct (_ <? _); destruct r; simpl; by rewrite ?length_insert. }
  rewrite !Hrefs.
  destruct (forget_history_refs s) as (Hdb & -> & _).
  change (database_refs (set_current_time t ?x)) with (database_refs x).
  by rewrite Hdb.
Qed.

Lemma forget_history_simulate time_steps s :
  forget_history (simulate time_steps s) =
  forget_history (simulate time_steps (forget_history s)).
Proof.
  unfold simulate. generalize (range1 time_steps). intros l. revert s.
  induction l as [|t l IH]; intros s; cbn [fold_left];
    [by rewrite forget_history_idemp|].
  rewrite IH, forget_history_simulate_iteration, <-IH.
  symmetry. by rewrite IH, <-forget_history_simulate_iteration, <-IH.
Qed.

Lemma reachable_run_trial time_steps r s :
  reachable s → reachable (run_trial time_steps r s).
Proof.
  intros Hs. unfold run_trial. apply reachable_simulate.
  destruct (deref (reset_system s) r) as [c|] eqn:Hr.
  - apply reachable_inject; [by apply reachable_reset | by eauto].
  - unfold inject_failure. rewrite Hr. by apply reachable_reset.
Qed.

Lemma trial_result_forget_history time_steps r s :
  trial_result time_steps r (forget_history s) = trial_result time_steps r s.
Proof.
  unfold trial_result. rewrite forget_history_system_down, deref_forget_history.
  by destruct (deref s r).
Qed.

(** The result of a trial does not depend on the state the trial starts
    from, as long as that state is reachable. *)
Lemma trial_result_run_trial time_steps r s :
  reachable s →
  trial_result time_steps r (run_trial time_steps r s) =
  trial_result time_steps r (simulate time_steps (inject_failure r baseline)).
Proof.
  intros Hs.
  rewrite <-(trial_result_forget_history _ _ (run_trial _ _ _)).
  rewrite <-(trial_result_forget_history _ _ (simulate _ _)).
  f_equal. unfold run_trial.
  rewrite forget_history_simulate, forget_history_inject_failure.
  rewrite (forget_history_reset_system s Hs).
  rewrite <-(forget_history_reset_system initial_state reachable_initial)
    at 1.
  fold baseline.
  by rewrite <-forget_history_inject_failure, <-forget_history_simulate.
Qed.

(** ** Attributes that never change, list-wise *)

Lemma related_fmap_components {A} (f : Component → A) (R : relation Component)
    s s' :
  (∀ c c', R c c' → f c' = f c) →
  related R s s' →
  f <$> components s' = f <$> components s.
Proof.
  intros Hf Hrel.
  assert (∀ r, f <$> deref s' r = f <$> deref s r) as Hderef.
  { intros r. specialize (Hrel r).
    destruct Hrel as [c c' Hc|]; simpl; [by rewrite (Hf _ _ Hc) | done]. }
  unfold components. rewrite !fmap_app. f_equal; [|f_equal].
  - specialize (Hderef RNetwork). injection Hderef as Hn.
    rewrite !fmap_cons. by rewrite Hn.
  - apply list_eq. intros i. rewrite !list_lookup_fmap.
    apply (Hderef (RDatabase i)).
  - apply list_eq. intros i. rewrite !list_lookup_fmap.
    apply (Hderef (RServer i)).
Qed.

Lemma related_reset_system (R : relation Component) s :
  (∀ c, R c (cleared c)) → related R s (reset_system s).
Proof.
  intros Hclr r. rewrite deref_reset_system.
  destruct (deref s r); constructor. apply Hclr.
Qed.

(** Every reachable state is related to the setup by any relation that
    absorbs the changes the engine makes to a component. *)
Lemma reachable_related (R : relation Component)
    `{!Reflexive R, !Transitive R} :
  (∀ c l t, R c (set_down_since (Some t) (set_status DOWN (set_load l c)))) →
  (∀ c l, status c = UP → R c (set_load l c)) →
  (∀ c l, status c = UP → l ≤ max_load c →
          R c (set_degraded true (set_load l c))) →
  (∀ t c, R c (recovered t c)) →
  (∀ c, R c (cleared c)) →
  ∀ s, reachable s → related R initial_state s.
Proof.
  intros Hdown Hload Hdegr Hrec Hclr s Hs.
  induction Hs as [|s r0 Hs IH Hr0|s n Hs IH|s Hs IH].
  - by apply related_refl.
  - eapply related_trans; [done..|]. by apply related_inject_failure.
  - eapply related_trans; [done..|]. by apply related_simulate.
  - eapply related_trans; [done..|]. by apply related_reset_system.
Qed.

Lemma recovered_static {A} (f : Component → A) t c :
  (∀ l st ds h d,
     f {| name := name c; max_load := max_load c;
          cost_per_step := cost_per_step c; load := l; status := st;
          dependencies := dependencies c; down_since := ds;
          recovery_time := recovery_time c; recovery_history := h;
          degraded := d |} = f c) →
  f (recovered t c) = f c.
Proof.
  intros Hf. unfold recovered.
  destruct (status c), (down_since c); try done.
  destruct (_ <=? _); [apply Hf | done].
Qed.

Lemma reachable_cost_per_step s :
  reachable s →
  cost_per_step <$> components s = [5000; 20000; 20000; 15000; 15000].
Proof.
  intros Hs.
  set (R := fun c c' : Component => cost_per_step c' = cost_per_step c).
  assert (Reflexive R) by (intros ?; reflexivity).
  assert (Transitive R) by (intros ? ? ? H12 H23; unfold R in *; congruence).
  apply (related_fmap_components cost_per_step R initial_state s); [done|].
  apply reachable_related; try done.
  intros t c. by apply (recovered_static cost_per_step).
Qed.

(** ** The cost of a run *)

Lemma failed_cost_bounds s :
  Forall (fun c => 0 ≤ cost_per_step c) (components s) →
  0 ≤ failed_cost s ≤ foldr Z.add 0 (cost_per_step <$> components s).
Proof.
  unfold failed_cost. generalize (components s). intros l Hl.
  induction Hl as [|c l Hc Hl IH]; [done|].
  rewrite filter_cons, !fmap_cons. cbn [foldr].
  destruct (decide (status c = DOWN)); [rewrite fmap_cons; cbn [foldr]|]; lia.
Qed.

Lemma before_recovery_cost_per_step t s :
  cost_per_step <$>
    components (distribute_traffic 120
                  (update_servers (update_databases (set_current_time t s))))
  = cost_per_step <$> components s.
Proof.
  set (R := fun c c' : Component => cost_per_step c' = cost_per_step c).
  assert (Reflexive R) by (intros ?; reflexivity).
  assert (Transitive R) by (intros ? ? ? H12 H23; unfold R in *; congruence).
  pose proof (related_fmap_components cost_per_step R s _
                ltac:(done) (related_before_recovery R ltac:(done)
                               ltac:(done) ltac:(done) t s)) as Hrel.
  rewrite <-Hrel. unfold record_system_down.
  by destruct (andb _ _).
Qed.

Lemma simulate_iteration_cost t s :
  reachable s →
  total_failure_cost s ≤ total_failure_cost (simulate_iteration t s)
    ≤ total_failure_cost s + 75000.
Proof.
  intros Hs.
  destruct (simulate_iteration_driver_variables t s) as (_ & -> & _).
  pose proof (before_recovery_cost_per_step t s) as Hcosts.
  rewrite (reachable_cost_per_step s Hs) in Hcosts.
  pose proof (failed_cost_bounds
    (distribute_traffic 120
       (update_servers (update_databases (set_current_time t s))))) as Hb.
  rewrite Hcosts in Hb. simpl in Hb.
  assert (Forall (fun c => 0 ≤ cost_per_step c)
            (components (distribute_traffic 120
               (update_servers (update_databases (set_current_time t s))))))
    as Hpos.
  { apply Forall_fmap with (f := cost_per_step) (P := fun z => 0 ≤ z).
    rewrite Hcosts. repeat constructor; lia. }
  specialize (Hb Hpos). lia.
Qed.

Lemma simulate_cost_nat (n : nat) s :
  reachable s →
  total_failure_cost s ≤ total_failure_cost (simulate (Z.of_nat n) s)
    ≤ total_failure_cost s + Z.of_nat n * 75000.
Proof.
  intros Hs. induction n as [|n IH].
  - change (simulate (Z.of_nat 0) s) with s. lia.
  - replace (Z.of_nat (S n)) with (Z.of_nat n + 1) by lia.
    rewrite simulate_snoc.
    pose proof (simulate_iteration_cost (Z.of_nat n + 1)
                  (simulate (Z.of_nat n) s)
                  (reachable_simulate s (Z.of_nat n) Hs)).
    lia.
Qed.

Lemma simulate_nonpositive time_steps s :
  time_steps ≤ 0 → simulate time_steps s = s.
Proof.
  intros Hle. unfold simulate, range1.
  by replace (Z.to_nat time_steps) with 0%nat by lia.
Qed.

(** X2: during a run the accumulated cost never decreases, and each of
    the run's steps adds at most the sum of the five [cost_per_step]
    (75000); a run of zero or a negative number of steps changes nothing
    at all. *)
Theorem simulate_cost_bounds time_steps s :
  reachable s →
  total_failure_cost s ≤ total_failure_cost (simulate time_steps s)
    ≤ total_failure_cost s + Z.max time_steps 0 * 75000 ∧
  (time_steps ≤ 0 → simulate time_steps s = s).
Proof.
  intros Hs. split; [|apply simulate_nonpositive].
  destruct (Z.le_gt_cases time_steps 0) as [Hle|Hgt].
  - rewrite simulate_nonpositive by done. lia.
  - pose proof (simulate_cost_nat (Z.to_nat time_steps) s Hs) as Hn.
    rewrite Z2Nat.id in Hn by lia. lia.
Qed.

Lemma simulate_cost_bounds_witness :
  total_failure_cost network_outage
    ≤ total_failure_cost (simulate 3 network_outage)
    ≤ total_failure_cost network_outage + Z.max 3 0 * 75000.
Proof.
  apply (simulate_cost_bounds 3 network_outage).
  apply reachable_inject;
    [apply reachable_reset, reachable_initial | vm_compute; eauto].
Defined.

(** ** Monte Carlo *)

Lemma calculate_resilience_score_bounds total_time s :
  0 ≤ calculate_resilience_score total_time s ∧
  ((∀ t, system_down_time s = Some t → t ≤ total_time) →
   calculate_resilience_score total_time s ≤ 100).
Proof.
  unfold calculate_resilience_score. split; [lia|]. intros Hle.
  destruct (system_down_time s) as [t|]; [specialize (Hle t eq_refl)|]; lia.
Qed.

Lemma inject_failure_driver_variables r s :
  driver_variables (inject_failure r s) = driver_variables s.
Proof.
  unfold inject_failure. destruct (deref s r); [|done]. by destruct r.
Qed.

Lemma run_trial_bounds time_steps r s :
  reachable s →
  0 ≤ total_failure_cost (run_trial time_steps r s)
    ≤ Z.max time_steps 0 * 75000 ∧
  0 ≤ calculate_resilience_score time_steps (run_trial time_steps r s) ≤ 100.
Proof.
  intros Hs. unfold run_trial.
  set (s0 := inject_failure r (reset_system s)).
  assert (reachable s0) as Hs0.
  { pose proof (reachable_run_trial 0 r s Hs) as H0. unfold run_trial in H0.
    by rewrite simulate_nonpositive in H0. }
  assert (driver_variables s0 = (0, None, 0)) as [= Ht Hsdt Hcost].
  { unfold s0. rewrite inject_failure_driver_variables. unfold driver_variables.
    by destruct (reset_system_globals s) as (_ & -> & -> & ->). }
  split.
  - destruct (Z.le_gt_cases time_steps 0) as [Hle|Hgt].
    + rewrite simulate_nonpositive by done. lia.
    + pose proof (simulate_cost_nat (Z.to_nat time_steps) s0 Hs0) as Hn.
      rewrite Z2Nat.id in Hn by lia. lia.
  - split; [apply calculate_resilience_score_bounds|].
    apply calculate_resilience_score_bounds. intros t Hdown.
    destruct (Z.le_gt_cases time_steps 0) as [Hle|Hgt].
    + rewrite simulate_nonpositive in Hdown by done. congruence.
    + pose proof (simulate_system_down_time (Z.to_nat time_steps) s0 t Hsdt)
        as Hn.
      rewrite Z2Nat.id in Hn by lia. specialize (Hn Hdown). lia.
Qed.

Lemma monte_carlo_loop_spec draws time_steps s results :
  reachable s →
  (monte_carlo_loop draws time_steps s results).1 =
    results ++
    ((fun r => trial_result time_steps r
                 (simulate time_steps (inject_failure r baseline))) <$> draws) ∧
  reachable (monte_carlo_loop draws time_steps s results).2 ∧
  (Forall (fun res => 0 ≤ cost res ≤ Z.max time_steps 0 * 75000 ∧
                      0 ≤ score res ≤ 100) results →
   Forall (fun res => 0 ≤ cost res ≤ Z.max time_steps 0 * 75000 ∧
                      0 ≤ score res ≤ 100)
          (monte_carlo_loop draws time_steps s results).1).
Proof.
  revert s results. induction draws as [|r draws IH]; intros s results Hs.
  - simpl. by rewrite app_nil_r.
  - cbn [monte_carlo_loop].
    destruct (IH (run_trial time_steps r s)
                 (results ++ [trial_result time_steps r
                                (run_trial time_steps r s)])
                 (reachable_run_trial time_steps r s Hs))
      as (Hres & Hreach & Hbounds).
    split; [|split; [done|]].
    + rewrite Hres, trial_result_run_trial by done.
      by rewrite <-app_assoc.
    + intros Hall. apply Hbounds, Forall_app. split; [done|].
      constructor; [|constructor].
      apply (run_trial_bounds time_steps r s Hs).
Qed.

(** X3: a Monte Carlo batch returns one result per run, and the result
    of a run is the one the same failure gives from the baseline: it
    depends on the drawn component and the number of steps only, not on
    the state the batch starts in nor on the runs before it (the
    recovery histories that [reset_system] keeps are never read by a
    run). *)
Theorem monte_carlo_simulation_independent draws time_steps s :
  reachable s →
  (monte_carlo_simulation draws time_steps s).1 =
    (fun r => trial_result time_steps r
                (simulate time_steps (inject_failure r baseline))) <$> draws ∧
  length (monte_carlo_simulation draws time_steps s).1 = length draws.
Proof.
  intros Hs. unfold monte_carlo_simulation.
  destruct (monte_carlo_loop_spec draws time_steps s [] Hs) as (Hres & _).
  rewrite Hres. split; [done|]. rewrite app_nil_l. apply length_fmap.
Qed.

Lemma monte_carlo_simulation_independent_witness :
  (monte_carlo_simulation [RNetwork; RServer 0] 3
     (simulate 3 network_outage)).1 =
  [ {| cost := 85000; score := 25; failed := "Network"; outage := true |};
    {| cost := 60000; score := 65; failed := "WebServer-1"; outage := false |} ].
Proof.
  etrans.
  - apply (monte_carlo_simulation_independent
             [RNetwork; RServer 0] 3 (simulate 3 network_outage)).
    apply reachable_simulate, reachable_inject;
      [apply reachable_reset, reachable_initial | vm_compute; eauto].
  - vm_compute; reflexivity.
Defined.

(** X4: every result of a Monte Carlo batch has a cost between 0 and
    75000 per step and a resilience score between 0 and 100. *)
Theorem monte_carlo_simulation_bounds draws time_steps s res :
  reachable s →
  res ∈ (monte_carlo_simulation draws time_steps s).1 →
  0 ≤ cost res ≤ Z.max time_steps 0 * 75000 ∧ 0 ≤ score res ≤ 100.
Proof.
  intros Hs Hin. unfold monte_carlo_simulation in Hin.
  destruct (monte_carlo_loop_spec draws time_steps s [] Hs) as (_ & _ & Hb).
  specialize (Hb (Forall_nil_2 _)). rewrite Forall_forall in Hb.
  by apply Hb.
Qed.

Lemma monte_carlo_simulation_bounds_witness :
  0 ≤ 85000 ≤ Z.max 3 0 * 75000 ∧ 0 ≤ 25 ≤ 100.
Proof.
  apply (monte_carlo_simulation_bounds [RNetwork] 3 baseline
           {| cost := 85000; score := 25; failed := "Network";
              outage := true |}).
  - apply reachable_reset, reachable_initial.
  - vm_compute. apply list_elem_of_here.
Defined.

(** ** The summary of a batch *)

Lemma dict_get_bump k k' d :
  dict_get k' (bump k d) =
  if decide (k = k') then S (dict_get k' d) else dict_get k' d.
Proof.
  induction d as [|[k0 n] d IH]; simpl; [by destruct (decide (k = k'))|].
  destruct (decide (k0 = k)) as [->|Hne0]; simpl.
  - destruct (decide (k = k')); [lia | done].
  - rewrite IH. destruct (decide (k0 = k')), (decide (k = k')); by subst.
Qed.

Lemma bump_keys k d :
  NoDup d.*1 → NoDup (bump k d).*1 ∧ ∀ k', k' ∈ (bump k d).*1 ↔ k' = k ∨ k' ∈ d.*1.
Proof.
  induction d as [|[k0 n] d IH]; simpl; intros Hnd.
  - split; [apply NoDup_singleton|]. intros k'.
    rewrite list_elem_of_singleton, elem_of_nil. tauto.
  - apply NoDup_cons in Hnd as [Hk0 Hnd]. destruct (IH Hnd) as [IH1 IH2].
    destruct (decide (k0 = k)) as [->|Hne]; simpl.
    + split; [by apply NoDup_cons|]. intros k'. rewrite elem_of_cons. tauto.
    + split.
      * apply NoDup_cons. split; [|done]. rewrite IH2. intros [?|?]; done.
      * intros k'. rewrite !elem_of_cons, IH2. tauto.
Qed.

Lemma bump_total k d :
  foldr Nat.add 0%nat (bump k d).*2 = S (foldr Nat.add 0%nat d.*2).
Proof.
  induction d as [|[k0 n] d IH]; [done|]. cbn [bump].
  destruct (decide (k0 = k)); rewrite !fmap_cons; cbn [foldr snd];
    [lia | rewrite IH; lia].
Qed.

Lemma frequency_fold (results : list TrialResult) d :
  NoDup d.*1 →
  let freq := fold_left (fun freq r => bump (failed r) freq) results d in
  NoDup freq.*1 ∧
  foldr Nat.add 0%nat freq.*2 =
    (foldr Nat.add 0%nat d.*2 + length results)%nat ∧
  ∀ k, dict_get k freq =
       (dict_get k d + length (filter (fun r => failed r = k) results))%nat.
Proof.
  revert d. induction results as [|r results IH]; intros d Hnd; simpl.
  - split; [done|]. split; [lia|]. intros k. lia.
  - destruct (bump_keys (failed r) d Hnd) as [Hnd' _].
    destruct (IH (bump (failed r) d) Hnd') as (H1 & H2 & H3).
    split; [done|]. split; [rewrite H2, bump_total; lia|].
    intros k. rewrite H3, dict_get_bump, filter_cons.
    destruct (decide (failed r = k)); simpl; lia.
Qed.

Lemma foldr_max_bounds (x : Z) (l : list Z) :
  (∀ y, y ∈ x :: l → y ≤ foldr Z.max x l) ∧ foldr Z.max x l ∈ x :: l.
Proof.
  induction l as [|z l [IH1 IH2]]; simpl.
  - split; [|apply list_elem_of_here].
    intros y ->%list_elem_of_singleton. lia.
  - split.
    + intros y Hy. apply elem_of_cons in Hy as [->|Hy].
      * specialize (IH1 x (list_elem_of_here _ _)). lia.
      * apply elem_of_cons in Hy as [->|Hy]; [lia|].
        specialize (IH1 y (list_elem_of_further _ _ _ Hy)). lia.
    + destruct (Z.max_spec z (foldr Z.max x l)) as [[_ ->]|[_ ->]].
      * apply elem_of_cons in IH2 as [->|IH2];
          [apply list_elem_of_here|by do 2 apply list_elem_of_further].
      * apply list_elem_of_further, list_elem_of_here.
Qed.

Lemma foldr_add_le (m : Z) (l : list Z) :
  (∀ y, y ∈ l → y ≤ m) → foldr Z.add 0 l ≤ Z.of_nat (length l) * m.
Proof.
  induction l as [|z l IH]; intros Hle; simpl; [lia|].
  specialize (Hle z (list_elem_of_here _ _)) as Hz.
  assert (foldr Z.add 0 l ≤ Z.of_nat (length l) * m)
    by (apply IH; intros y Hy; by apply Hle, list_elem_of_further).
  lia.
Qed.

(** X5: [analyze_monte_carlo] fails (division by zero) exactly on an
    empty list of results.  Otherwise the worst cost is the cost of one
    of the runs and no run costs more, the average cost is at most the
    worst cost, the outage probability lies between 0 and 100, and the
    frequency table has one entry per failed component, whose count is
    the number of runs that failed it, the counts adding up to the
    number of runs. *)
Theorem analyze_monte_carlo_spec results :
  (analyze_monte_carlo results = None ↔ results = []) ∧
  ∀ sm, analyze_monte_carlo results = Some sm →
    total_runs sm = length results ∧
    (∀ r, r ∈ results → cost r ≤ worst_cost sm) ∧
    (∃ r, r ∈ results ∧ cost r = worst_cost sm) ∧
    (avg_cost sm <= inject_Z (worst_cost sm))%Q ∧
    (0 <= outage_prob sm <= 100)%Q ∧
    NoDup (frequency sm).*1 ∧
    foldr Nat.add 0%nat (frequency sm).*2 = length results ∧
    ∀ k, dict_get k (frequency sm)
         = length (filter (fun r => failed r = k) results).
Proof.
  split; [destruct results; simpl; split; done|].
  intros sm Hsm. destruct results as [|r rest]; [done|].
  injection Hsm as <-. cbn [total_runs worst_cost avg_cost outage_prob frequency].
  destruct (foldr_max_bounds (cost r) (cost <$> rest)) as [Hmax Hin].
  assert (∀ y, y ∈ cost <$> r :: rest → y ≤ foldr Z.max (cost r) (cost <$> rest))
    as Hmax' by (intros y Hy; by apply Hmax).
  assert (Z.pos (Pos.of_nat (S (length rest)))
          = Z.of_nat (S (length rest))) as Hden by lia.
  split; [done|]. split; [|split; [|split; [|split]]].
  - intros r' Hr'. apply Hmax'. by apply list_elem_of_fmap_2.
  - rewrite <-fmap_cons in Hin. apply list_elem_of_fmap in Hin as (r' & Heq & Hr').
    by exists r'.
  - unfold Qle. cbn [Qnum Qden inject_Z].
    change (list_fmap TrialResult Z cost rest) with (cost <$> rest).
    rewrite Hden, Z.mul_1_r.
    pose proof (foldr_add_le _ _ Hmax') as Hsum.
    rewrite length_fmap, fmap_cons in Hsum. cbn [foldr length] in Hsum. lia.
  - pose proof (length_filter (fun r => outage r = true) (r :: rest)) as Hlen.
    cbn [length] in Hlen.
    unfold Qle, Qmult. cbn [Qnum Qden inject_Z length].
    rewrite !Pos2Z.inj_mul, Hden. split; lia.
  - pose proof (frequency_fold (r :: rest) [] (NoDup_nil_2)) as (H1 & H2 & H3).
    split; [exact H1|]. split; [exact H2 | exact H3].
Qed.

Lemma analyze_monte_carlo_spec_witness :
  ∃ sm,
    analyze_monte_carlo
      (monte_carlo_simulation [RNetwork; RServer 0; RNetwork] 3 baseline).1
      = Some sm ∧
    worst_cost sm = 85000 ∧ dict_get "Network" (frequency sm) = 2%nat.
Proof.
  eexists. split; [vm_compute; reflexivity|].
  split; [reflexivity|].
  etrans.
  - eapply (analyze_monte_carlo_spec
              (monte_carlo_simulation [RNetwork; RServer 0; RNetwork] 3
                 baseline).1).
    vm_compute; reflexivity.
  - vm_compute; reflexivity.
Defined.
